(** * drupalValidator: rule composition and error-state reconciliation

    A shallow embedding of the JavaScript library [drupalValidator]
    (layers 3 to 5, plus the layer-2 composites of [exampleValidator.js]).

    - Layer 5 ([drupalValidatorBasics.js]): predicates on strings.
    - Layer 4 ([drupalValidator.js]): [setErrorState], [recoverErrorState],
      [otherErrorsExist], acting on the classes of the page.
    - Layer 3 ([drupalValidator.js]): [runValidationRuleset],
      [bindValidationError], [bindFieldValidationArray] and the
      [validate*Field] rule sets.
    - Layer 2 ([exampleValidator.js]): the [handle*Field] composites. *)

From Stdlib Require Import ZArith Ascii String Bool List Lia.
From stdpp Require Import base decidable gmap.

Local Open Scope Z_scope.

(** ** JavaScript values that the library tests *)

(** Flag arguments ([error_on_blank], [fail_on_blank], [required],
    [return_errors], [halt_on_error]) are documented as booleans; callers
    also leave them out, which makes them [undefined]. *)
Inductive flag : Type :=
| Undefined
| Bool (b : bool).

(** [f === true] *)
Definition strict_true (f : flag) : bool :=
  match f with Bool true => true | _ => false end.

(** [f === false] *)
Definition strict_false (f : flag) : bool :=
  match f with Bool false => true | _ => false end.

(** [f == false]: loose equality; [undefined == false] is false. *)
Definition loose_false (f : flag) : bool :=
  match f with Bool false => true | _ => false end.

(** [!f]: [undefined] is falsy. *)
Definition js_not (f : flag) : bool :=
  match f with Bool true => false | _ => true end.

(** A number argument that may be left [undefined] ([min], [max]). *)
Definition number := option Z.

(** [a < b] and [a > b] on numbers: a comparison with [undefined] is false. *)
Definition js_lt (a : Z) (b : number) : bool :=
  match b with Some n => a <? n | None => false end.

Definition js_gt (a : Z) (b : number) : bool :=
  match b with Some n => a >? n | None => false end.

Definition is_undefined (n : number) : bool :=
  match n with None => true | Some _ => false end.

(** ** Strings

    A JavaScript string is a sequence of code units; the embedding keeps
    the code units below 256, one [ascii] each. *)

Definition str_length (s : string) : Z := Z.of_nat (String.length s).

(** [s.indexOf(needle)]: the first position at which [needle] occurs, or
    [-1]. The empty needle occurs at position 0. *)
Fixpoint indexOf_from (needle haystack : string) (pos : Z) : Z :=
  if String.prefix needle haystack then pos
  else match haystack with
       | EmptyString => -1
       | String _ rest => indexOf_from needle rest (pos + 1)
       end.

Definition indexOf (haystack needle : string) : Z :=
  indexOf_from needle haystack 0.

(** [s.replace(/-/g, empty)]: every dash removed. *)
Fixpoint remove_dashes (s : string) : string :=
  match s with
  | EmptyString => EmptyString
  | String c rest =>
      if Ascii.eqb c "-" then remove_dashes rest
      else String c (remove_dashes rest)
  end.

(** ** Regular expressions

    The regular expressions of the library use character classes,
    concatenation, alternation and repetition, with [^] and [$] only at
    the two ends. [test] is decided with derivatives. *)
Module Regex.

Inductive re : Type :=
| Void
| Eps
| Class (p : ascii -> bool)
| Cat (r1 r2 : re)
| Alt (r1 r2 : re)
| Star (r : re).

Fixpoint nullable (r : re) : bool :=
  match r with
  | Void => false
  | Eps => true
  | Class _ => false
  | Cat r1 r2 => nullable r1 && nullable r2
  | Alt r1 r2 => nullable r1 || nullable r2
  | Star _ => true
  end.

(** Constructors that drop [Void] and [Eps] where they change nothing,
    so that derivatives stay small. *)
Definition cat (r1 r2 : re) : re :=
  match r1, r2 with
  | Void, _ => Void
  | _, Void => Void
  | Eps, _ => r2
  | _, Eps => r1
  | _, _ => Cat r1 r2
  end.

Definition alt (r1 r2 : re) : re :=
  match r1, r2 with
  | Void, _ => r2
  | _, Void => r1
  | _, _ => Alt r1 r2
  end.

Fixpoint deriv (c : ascii) (r : re) : re :=
  match r with
  | Void => Void
  | Eps => Void
  | Class p => if p c then Eps else Void
  | Cat r1 r2 =>
      if nullable r1 then alt (cat (deriv c r1) r2) (deriv c r2)
      else cat (deriv c r1) r2
  | Alt r1 r2 => alt (deriv c r1) (deriv c r2)
  | Star r1 => cat (deriv c r1) (Star r1)
  end.

(** The whole of [s] is a word of [r]. *)
Fixpoint matches (r : re) (s : string) : bool :=
  match s with
  | EmptyString => nullable r
  | String c rest => matches (deriv c r) rest
  end.

(** [r+], [r?], [r{n}], [r{0,n}] *)
Definition plus (r : re) : re := Cat r (Star r).
Definition opt (r : re) : re := Alt Eps r.

Fixpoint rep (n : nat) (r : re) : re :=
  match n with
  | O => Eps
  | S k => Cat r (rep k r)
  end.

Fixpoint upto (n : nat) (r : re) : re :=
  match n with
  | O => Eps
  | S k => opt (Cat r (upto k r))
  end.

(** Character classes *)
Definition code (c : ascii) : N := N_of_ascii c.

Definition range (lo hi : ascii) (c : ascii) : bool :=
  (code lo <=? code c)%N && (code c <=? code hi)%N.

Definition one_of (cs : string) (c : ascii) : bool :=
  existsb (Ascii.eqb c) (list_ascii_of_string cs).

Definition digit : ascii -> bool := range "0" "9".      (* [\d], [0-9] *)
Definition lower : ascii -> bool := range "a" "z".      (* [a-z] *)
Definition upper : ascii -> bool := range "A" "Z".      (* [A-Z] *)
Definition alnum (c : ascii) : bool := lower c || upper c || digit c.
Definition any_char (_ : ascii) : bool := true.

(** [.]: any character but a line terminator. *)
Definition dot (c : ascii) : bool :=
  negb ((code c =? 10)%N || (code c =? 13)%N).

Definition chr (a : ascii) : re := Class (Ascii.eqb a).

(** The word [w], character by character. *)
Fixpoint word (w : string) : re :=
  match w with
  | EmptyString => Eps
  | String c rest => Cat (chr c) (word rest)
  end.

(** A regular expression as the library writes it: a body, anchored
    with [^] at its start or [$] at its end or not. *)
Record regexp : Type := mkRegexp {
  anchor_start : bool;
  body : re;
  anchor_end : bool
}.

(** [rx.test(s)]: some part of [s] is a word of the body, a part that
    starts [s] under [^] and ends it under [$]. *)
Definition test (rx : regexp) (s : string) : bool :=
  matches
    (Cat (if anchor_start rx then Eps else Star (Class any_char))
         (Cat (body rx)
              (if anchor_end rx then Eps else Star (Class any_char))))
    s.

(** [s.replace(rx, empty)] for [rx] anchored at both ends: the match,
    when there is one, is the whole of [s]. *)
Definition replace_whole (rx : regexp) (s : string) : string :=
  if test rx s then EmptyString else s.

End Regex.

Import Regex.

(** ** Layer 5: raw validation functions ([drupalValidatorBasics.js]) *)

Definition lengthValid (value : string) (min max : number)
           (fail_on_blank : flag) : bool :=
  if is_undefined min && is_undefined max then true
  else if js_not fail_on_blank && (str_length value =? 0) then true
  else if is_undefined min && js_gt (str_length value) max then false
  else if is_undefined max && js_lt (str_length value) min then false
  else if js_lt (str_length value) min || js_gt (str_length value) max
       then false
       else true.

Definition fieldNotEmpty (value : string) : bool :=
  lengthValid value (Some 1) (Some 999999) (Bool true).

(** [/^\d{3}-?\d{2}-?\d{4}$/] *)
Definition socialRegex : regexp :=
  mkRegexp true
    (Cat (rep 3 (Class digit))
       (Cat (opt (chr "-"))
          (Cat (rep 2 (Class digit))
             (Cat (opt (chr "-")) (rep 4 (Class digit))))))
    true.

Definition ssnValid (value : string) (error_on_blank : flag) : bool :=
  let count := str_length value in
  if (count =? 0) && loose_false error_on_blank then true
  else if (negb (count =? 0) && (count <? 9))
          || negb (test socialRegex value)
       then false
       else true.

(** The local part of the mail address:
    [[a-zA-Z0-9.!#$%&'*+\/=?^_`{|}~-]] *)
Definition email_local (c : ascii) : bool :=
  alnum c || one_of ".!#$%&'*+/=?^_`{|}~-" c.

(** [[a-zA-Z0-9](?:[a-zA-Z0-9-]{0,61}[a-zA-Z0-9])?] *)
Definition email_label : re :=
  Cat (Class alnum)
      (opt (Cat (upto 61 (Class (fun c => alnum c || Ascii.eqb c "-")))
                (Class alnum))).

Definition emailRegex : regexp :=
  mkRegexp false
    (Cat (plus (Class email_local))
       (Cat (chr "@")
          (Cat email_label (Star (Cat (chr ".") email_label)))))
    true.

Definition emailValid (value : string) (error_on_blank : flag) : bool :=
  if (str_length value =? 0) && loose_false error_on_blank then true
  else test emailRegex value.

(** An evaluation either returns a value or throws. *)
Inductive outcome (A : Type) : Type :=
| Returned (a : A)
| Thrown.
Arguments Returned {A} a.
Arguments Thrown {A}.

(** [/^\d{3}-?\d{3}-?\d{4}$/] *)
Definition numericRegex : regexp :=
  mkRegexp true
    (Cat (rep 3 (Class digit))
       (Cat (opt (chr "-"))
          (Cat (rep 3 (Class digit))
             (Cat (opt (chr "-")) (rep 4 (Class digit))))))
    true.

(** [new RegExp("^" + firstChar + "+$")]. The first character of the value
    is pasted into the pattern as it is, so a character of the pattern
    syntax keeps its meaning there:
    - [.] stands for any character;
    - a backslash escapes the [+] that follows: the pattern is [^\+$];
    - [* + ? ( ) [ | ^ $] make a pattern that does not parse, and the
      constructor throws a SyntaxError;
    - on the empty string the first character is [undefined] and the
      pattern is [^undefined+$]. *)
Definition sameCharRegExp (firstChar : option ascii) : outcome regexp :=
  match firstChar with
  | None => Returned (mkRegexp true (Cat (word "undefine") (plus (chr "d"))) true)
  | Some c =>
      if Ascii.eqb c "." then Returned (mkRegexp true (plus (Class dot)) true)
      else if Ascii.eqb c "\" then Returned (mkRegexp true (chr "+") true)
      else if one_of "*+?()[|^$" c then Thrown
      else Returned (mkRegexp true (plus (chr c)) true)
  end.

Definition phone_ruleOne (value : string) : bool := test numericRegex value.

Definition phone_ruleTwo (value : string) : bool :=
  str_length (remove_dashes value) =? 10.

Definition phone_ruleThere (value : string) : outcome bool :=
  match sameCharRegExp (String.get 0 value) with
  | Thrown => Thrown
  | Returned rx =>
      Returned (negb (str_length (replace_whole rx (remove_dashes value)) =? 0))
  end.

Definition phoneValid (value : string) (error_on_blank : flag) : outcome bool :=
  if (str_length value =? 0) && loose_false error_on_blank then Returned true
  else
    let ruleOne := phone_ruleOne value in
    let ruleTwo := phone_ruleTwo value in
    match phone_ruleThere value with
    | Thrown => Thrown
    | Returned ruleThere => Returned (ruleOne && ruleTwo && ruleThere)
    end.

Definition doesNotContainValue (needle haystack : string)
           (error_on_blank : flag) : bool :=
  if (str_length needle =? 0) && js_not error_on_blank then true
  else if indexOf haystack needle =? -1 then true
  else false.

(** The unanchored classes: [/[0-9!@?]+/], [/[A-Z]+/], [/[a-z]+/],
    [/[0-9]+/], [/[^0-9a-zA-Z]+/], [/[^0-9]+/]. *)
Definition unanchored (p : ascii -> bool) : regexp :=
  mkRegexp false (plus (Class p)) false.

Definition containsSpecialCharacters (value : string) : bool :=
  test (unanchored (fun c => digit c || one_of "!@?" c)) value.

Definition containsUppercase (value : string) : bool :=
  test (unanchored upper) value.

Definition containsLowercase (value : string) : bool :=
  test (unanchored lower) value.

Definition containsNumber (value : string) : bool :=
  test (unanchored digit) value.

Definition containsOnlyAlphaNumeric (value : string) : bool :=
  negb (test (unanchored (fun c => negb (alnum c))) value).

Definition containsOnlyNumeric (value : string) : bool :=
  negb (test (unanchored (fun c => negb (digit c))) value).

Definition containsAtLeastOneAlpha (value : string) : bool :=
  containsUppercase value || containsLowercase value.

Definition containsLowerAndUppercase (value : string) : bool :=
  containsUppercase value && containsLowercase value.

(** ** The page

    An element of the page, with the part of the tree around it that the
    library looks at. The tree itself does not change while the library
    runs; the classes, the values and the messages do. The functions are
    given the element itself, as their documentation has it ([element],
    [domElement]), and two elements are the same when their [node] is. *)
Record domElement : Type := mkElement {
  node : nat;                  (* the identity of the element *)
  is_input : bool;             (* the element matches the selector [input] *)
  closest_form : option nat;   (* [closest('form')], when there is one *)
  label_items : list nat;      (* the [.form-item-label] wrappers found by
                                  [closest] from [label[for=id]] *)
  form_item : option nat       (* the group of siblings in which
                                  [closest('.form-item')] stands, when there
                                  is one: form items that are siblings of
                                  each other are in one group and have the
                                  same [.messages] siblings *)
}.

(** What the Error Sink was asked to do: one entry for each call of
    [setErrorState] and of [recoverErrorState], oldest first. The list is
    not a variable of the library; it records which of the two operations
    a run has performed. *)
Inductive command : Type :=
| setError (field : nat) (message : string)
| clearError (field : nat).

(** Forms are not nested, so the inputs below a form are the inputs whose
    closest form it is, and the class [form-error-state] is only put on
    forms, so [closest('.form-error-state')] is the closest form when it
    carries that class. *)
Record page : Type := mkPage {
  document : list domElement;        (* the elements, in document order *)
  values : gmap nat string;          (* the current value of each field *)
  error_class : gset nat;            (* elements with the class [error] *)
  label_error : gset nat;            (* label wrappers with the class [error] *)
  form_error_state : gset nat;       (* forms with the class [form-error-state] *)
  messages : gmap nat (list string); (* for a group of siblings, the html of
                                        its [.messages] boxes, one entry
                                        each *)
  commands : list command
}.

Definition with_error_class (f : gset nat -> gset nat) (p : page) : page :=
  mkPage (document p) (values p) (f (error_class p)) (label_error p)
         (form_error_state p) (messages p) (commands p).

Definition with_label_error (f : gset nat -> gset nat) (p : page) : page :=
  mkPage (document p) (values p) (error_class p) (f (label_error p))
         (form_error_state p) (messages p) (commands p).

Definition with_form_error_state (f : gset nat -> gset nat) (p : page) : page :=
  mkPage (document p) (values p) (error_class p) (label_error p)
         (f (form_error_state p)) (messages p) (commands p).

Definition with_messages (f : gmap nat (list string) -> gmap nat (list string))
           (p : page) : page :=
  mkPage (document p) (values p) (error_class p) (label_error p)
         (form_error_state p) (f (messages p)) (commands p).

Definition with_command (c : command) (p : page) : page :=
  mkPage (document p) (values p) (error_class p) (label_error p)
         (form_error_state p) (messages p) (commands p ++ [c]).

(** ** Computations on the page: a state that is passed along, and an
    exception that ends the run. *)
Definition M (A : Type) : Type := page -> outcome A * page.

Definition ret {A : Type} (a : A) : M A := fun p => (Returned a, p).

Definition bind {A B : Type} (m : M A) (k : A -> M B) : M B :=
  fun p =>
    match m p with
    | (Returned a, p') => k a p'
    | (Thrown, p') => (Thrown, p')
    end.

Definition lift {A : Type} (o : outcome A) : M A := fun p => (o, p).

Definition gets {A : Type} (f : page -> A) : M A := fun p => (Returned (f p), p).

Definition modify (f : page -> page) : M unit := fun p => (Returned tt, f p).

Notation "'let*' x ':=' m 'in' k" := (bind m (fun x => k))
  (at level 10, x name, m at level 100, k at level 200).
Notation "m ';;' k" := (bind m (fun _ => k))
  (at level 100, k at level 200, right associativity).

(** [jQuery(element).val()] *)
Definition value_of (p : page) (element : domElement) : string :=
  default EmptyString (values p !! node element).

Definition val (element : domElement) : M string :=
  gets (fun p => value_of p element).

(** [jQuery(form).find('input.error')], in document order; the empty set
    when there is no form. *)
Definition find_input_error (form : option nat) : M (list domElement) :=
  gets (fun p =>
    match form with
    | None => []
    | Some fm =>
        List.filter
          (fun e => is_input e
                    && bool_decide (closest_form e = Some fm)
                    && bool_decide (node e ∈ error_class p))
          (document p)
    end).

(** ** Layer 4: error state functions ([drupalValidator.js]) *)

(** [jQuery.each] over the elements found, counting those that are not
    the element passed. *)
Definition count_others (element : domElement)
           (error_elements : list domElement) : Z :=
  fold_left
    (fun count value =>
       if negb (Nat.eqb (node value) (node element)) then count + 1 else count)
    error_elements 0.

Definition otherErrorsExist (element : domElement) : M bool :=
  let my_form := closest_form element in
  (* [if (my_form)]: a jQuery object, always truthy *)
  let* error_elements := find_input_error my_form in
  let count := count_others element error_elements in
  if count >? 0 then ret true else ret false.

(** The message boxes of the element are the [.messages] siblings of its
    form item. The code pastes the message in as markup, in a new [div]
    put after the form item when there is no box, with [html] otherwise.
    What is recorded is the html of a box for a message of plain text, as
    layer 2 passes them: no [&], [<] or [>], no no-break space, null
    character or carriage return, so that the browser keeps the text as it
    is and adds one box and nothing else ([plain_text] below). A message
    that holds markup is outside of what [messages] describes. *)
Definition set_messages (message : string) (element : domElement)
           (p : page) : page :=
  match form_item element with
  | None => p
  | Some item =>
      match default [] (messages p !! item) with
      | [] => with_messages (insert item [message]) p
      | found => with_messages (insert item (List.map (fun _ => message) found)) p
      end
  end.

Definition setErrorState (element : domElement) (message : string) : M unit :=
  modify (with_command (setError (node element) message)) ;;
  (* Add the error to the input. *)
  modify (with_error_class (union {[node element]})) ;;
  (* Add the error to the label. *)
  let element_label := label_items element in
  let* has := gets (fun p =>
    existsb (fun l => bool_decide (l ∈ label_error p)) element_label) in
  (if negb has
   then modify (with_label_error (union (list_to_set element_label)))
   else ret tt) ;;
  (* Add an error class to the global form. *)
  (match closest_form element with
   | Some my_form => modify (with_form_error_state (union {[my_form]}))
   | None => ret tt
   end) ;;
  (* The message: added when there is none, replaced otherwise. *)
  modify (set_messages message element).

Definition clear_messages (element : domElement) (p : page) : page :=
  match form_item element with
  | None => p
  | Some item =>
      match messages p !! item with
      | None => p
      | Some found =>
          with_messages (insert item (List.map (fun _ => EmptyString) found)) p
      end
  end.

Definition recoverErrorState (element : domElement) : M unit :=
  modify (with_command (clearError (node element))) ;;
  (* Remove the form field error class. *)
  modify (with_error_class (fun s => s ∖ {[node element]})) ;;
  (* Find the label of the field, and remove it. *)
  modify (with_label_error (fun s => s ∖ list_to_set (label_items element))) ;;
  (* Determine if that was the only error on the page. *)
  let* others := otherErrorsExist element in
  (if negb others
   then match closest_form element with
        | Some my_form => modify (with_form_error_state (fun s => s ∖ {[my_form]}))
        | None => ret tt
        end
   else ret tt) ;;
  (* [if (element_error_message)]: a jQuery object, always truthy *)
  modify (clear_messages element).

(** ** Layer 3.B: validation behaviour ([drupalValidator.js]) *)

(** What [runValidationRuleset] returns: a boolean, or the array of the
    results. *)
Inductive ruleset_result : Type :=
| Verdict (b : bool)
| Results (error_array : list bool).

(** How the [for] loop ends: by the [return false] inside it, or at the
    end of the array with [error_array] and [errors]. *)
Inductive loop_end : Type :=
| Halted
| Finished (error_array : list bool) (errors : bool).

Fixpoint ruleset_loop (return_errors halt_on_error : flag)
         (validation_callbacks : list bool)
         (error_array : list bool) (errors : bool) : loop_end :=
  match validation_callbacks with
  | [] => Finished error_array errors
  | my_result :: rest =>
      (* If halt on false, the exit. *)
      if strict_true halt_on_error && negb my_result then Halted
      else
        let error_array := error_array ++ [my_result] in
        let errors :=
          if negb (strict_true return_errors) && negb my_result
          then true else errors in
        ruleset_loop return_errors halt_on_error rest error_array errors
  end.

Definition runValidationRuleset (validation_callbacks : list bool)
           (return_errors halt_on_error : flag) : ruleset_result :=
  match ruleset_loop return_errors halt_on_error validation_callbacks [] false with
  | Halted => Verdict false
  | Finished error_array errors =>
      if strict_true return_errors then Results error_array
      else Verdict (negb errors)
  end.

(** [results === b] *)
Definition is_verdict (b : bool) (results : ruleset_result) : bool :=
  match results with
  | Verdict b' => Bool.eqb b b'
  | Results _ => false
  end.

Definition bindValidationError (field : domElement) (callback : bool)
           (error_message : string) : M bool :=
  if negb callback then
    setErrorState field error_message ;;
    ret false
  else ret true.

(** The argument [report_error_message]: a message, or a flag. *)
Inductive report : Type :=
| Message (text : string)
| Report (f : flag).

Definition bindFieldValidationArray (field : domElement)
           (validaton_callbacks : list bool)
           (report_error_message : report) : M bool :=
  let '(error_message, report_error_message) :=
    match report_error_message with
    | Message text => (text, false)
    | Report f => (EmptyString, negb (strict_false f))
    end in
  (* Execute all rules, and get a result, or array of errors. *)
  let results :=
    runValidationRuleset validaton_callbacks (Bool false) (Bool true) in
  (* If error-free, recover error state. *)
  if negb report_error_message && is_verdict true results then
    recoverErrorState field ;;
    ret true
  else
    (if is_verdict false results && negb report_error_message
     then setErrorState field error_message
     else ret tt) ;;
    ret false.

(** ** Layer 5, the predicates that read fields *)

Definition fieldsMatch (field_1 field_2 : domElement) (fail_on_blank : flag)
  : M bool :=
  let* v1 := val field_1 in
  let* v2 := val field_2 in
  if strict_false fail_on_blank
     && ((str_length v1 =? 0) || (str_length v2 =? 0)) then ret true
  else if negb (String.eqb v1 v2) then ret false
  else ret true.

(** [jQuery(all_fields).each], left at the first field that is not empty. *)
Fixpoint allFieldsEmpty (all_fields : list domElement) : M bool :=
  match all_fields with
  | [] => ret true
  | this :: rest =>
      let* v := val this in
      if fieldNotEmpty v then ret false else allFieldsEmpty rest
  end.

Definition NotEmptyIfAnyFieldsNotEmpty (field : domElement)
           (all_fields : list domElement) : M bool :=
  (* First, remove our element from the all_elements list. *)
  let all_fields :=
    List.filter (fun value => negb (Nat.eqb (node value) (node field)))
                all_fields in
  let* empty := allFieldsEmpty all_fields in
  let* v := val field in
  if negb empty && negb (fieldNotEmpty v) then ret false else ret true.

(** ** Layer 3: validation bound to the error state ([drupalValidator.js]) *)

Definition validateSSNField (input_element : domElement)
           (error_message : string) (error_on_blank : flag) : M bool :=
  let* v := val input_element in
  bindValidationError input_element (ssnValid v error_on_blank) error_message.

Definition validatePhoneField (input_element : domElement)
           (error_message : string) (error_on_blank : flag) : M bool :=
  let* v := val input_element in
  let* valid := lift (phoneValid v error_on_blank) in
  bindValidationError input_element valid error_message.

Definition validateEmailField (input_element : domElement)
           (error_message : string) (error_on_blank : flag) : M bool :=
  let* v := val input_element in
  bindValidationError input_element (emailValid v error_on_blank) error_message.

Definition validateZipField (input_element : domElement)
           (error_message : string) (error_on_blank : flag) : M bool :=
  let* v := val input_element in
  let rules :=
    [ (* Only numeric values. *)
      containsOnlyNumeric v;
      (* Must be 5 characters. *)
      lengthValid v (Some 5) (Some 5) error_on_blank ] in
  bindFieldValidationArray input_element rules (Message error_message).

Definition validatePasswordField (input_element user_id_element : domElement)
           (error_message : string) : M bool :=
  let* v := val input_element in
  let* user_id := val user_id_element in
  let rules :=
    [ (* Must be at least 8 characters. *)
      lengthValid v (Some 8) (Some 128) (Bool true);
      (* Must contain both a lower and upper case latter. *)
      containsLowerAndUppercase v;
      (* Must contain a Number *)
      containsNumber v;
      (* Cannot contain the user ID. *)
      doesNotContainValue user_id v (Bool false) ] in
  bindFieldValidationArray input_element rules (Message error_message).

Definition validateSecurityField (input_element linked_element : domElement)
           (error_message : string) (error_on_blank : flag) : M bool :=
  let* v := val input_element in
  let* linked := val linked_element in
  let rules :=
    [ lengthValid v (Some 4) (Some 512) error_on_blank;
      (* Cannot contain the value of the linked field. *)
      doesNotContainValue linked v error_on_blank ] in
  bindFieldValidationArray input_element rules (Message error_message).

Definition validateConfirmField (primary_field confirm_field : domElement)
           (error_on_blank : flag) (error_message : string) : M bool :=
  let* same := fieldsMatch primary_field confirm_field error_on_blank in
  bindValidationError confirm_field same error_message.

Definition validateRequiredField (field : domElement)
           (error_message : string) : M bool :=
  let* v := val field in
  bindValidationError field (fieldNotEmpty v) error_message.

Definition validateRequiredOneForAllField (field : domElement)
           (all_fields : list domElement) (error_message : string) : M bool :=
  let* filled := NotEmptyIfAnyFieldsNotEmpty field all_fields in
  bindValidationError field filled error_message.

Definition validateCompanyIdField (input_element : domElement)
           (error_message : string) (error_on_blank : flag) : M bool :=
  let* v := val input_element in
  let rules :=
    [ (* Length must be 4 characters. *)
      lengthValid v (Some 4) (Some 4) error_on_blank;
      (* Only contains alphanumeric characters. *)
      containsOnlyAlphaNumeric v ] in
  bindFieldValidationArray input_element rules (Message error_message).

(** ** Layer 2: the composites of [exampleValidator.js] *)

Definition handleSSNField (element : domElement) (error_on_blank : flag)
  : M bool :=
  let* r := validateSSNField element "You entered the incorrect format"
                             error_on_blank in
  bindFieldValidationArray element [r] (Report (Bool true)).

Definition handleZipField (field : domElement) (error_on_blank required : flag)
  : M bool :=
  let* r := validateZipField field "Incorrect Format" error_on_blank in
  let validation_array := [r] in
  let* validation_array :=
    if strict_true required then
      let* q := validateRequiredField field "This field is required" in
      ret (validation_array ++ [q])
    else ret validation_array in
  bindFieldValidationArray field validation_array (Report (Bool true)).

Definition handleRequiredField (field : domElement) : M bool :=
  validateRequiredField field "Field is required".

Definition handleRequiredOneForAllField (field : domElement)
           (all_fields : list domElement) : M bool :=
  validateRequiredOneForAllField field all_fields "Required to complete address".

Definition handleZipAllForOneField (field : domElement)
           (all_fields : list domElement) : M bool :=
  let* r := validateZipField field "Incorrect Format" (Bool false) in
  let* q := validateRequiredOneForAllField field all_fields
                                           "Required to complete address" in
  bindFieldValidationArray field [r; q] (Report (Bool true)).

Definition handlePhoneField (field : domElement) (error_on_blank required : flag)
  : M bool :=
  let* r := validatePhoneField field "Incorrect Format" error_on_blank in
  let validation_array := [r] in
  let* validation_array :=
    if strict_true required then
      let* q := validateRequiredField field "Field is required" in
      ret (validation_array ++ [q])
    else ret validation_array in
  bindFieldValidationArray field validation_array (Report (Bool true)).

Definition handleEmailField (field : domElement) (error_on_blank : flag)
  : M bool :=
  let* r := validateEmailField field "Incorrect Format" error_on_blank in
  let* q := validateRequiredField field "Field is required" in
  bindFieldValidationArray field [r; q] (Report (Bool true)).

(** ** Definitions used to state the properties *)

(** Some input of the form of [element], other than [element], carries
    the class [error]. *)
Definition other_errors (p : page) (element : domElement) : bool :=
  match closest_form element with
  | None => false
  | Some fm =>
      existsb
        (fun e => is_input e
                  && bool_decide (closest_form e = Some fm)
                  && bool_decide (node e ∈ error_class p)
                  && negb (Nat.eqb (node e) (node element)))
        (document p)
  end.

(** The argument [report_error_message] is a message or [false]: the
    modes in which [bindFieldValidationArray] acts on the field. *)
Definition acts_on_field (r : report) : Prop :=
  r = Report (Bool false) \/ exists text, r = Message text.

(** A page with one form (1) and two inputs in it. *)
Definition field_a : domElement := mkElement 10 true (Some 1%nat) [20%nat] (Some 30%nat).
Definition field_b : domElement := mkElement 11 true (Some 1%nat) [21%nat] (Some 31%nat).



Definition sample_page (vs : gmap nat string) (errors : gset nat)
           (forms : gset nat) : page :=
  mkPage [field_a; field_b] vs errors ∅ forms ∅ [].

(** ** The functions of layers 5 and 6 that no other layer calls *)

(** [/(.)\1\1/.test(value)]: some character that is not a line terminator
    stands three times in a row. *)
Fixpoint moreThanTwoReps (value : string) : bool :=
  match value with
  | String a (String b (String c _) as rest) =>
      (dot a && Ascii.eqb a b && Ascii.eqb a c) || moreThanTwoReps rest
  | _ => false
  end.

Definition doesNotContainDoubleCharacters (value : string) : bool :=
  negb (moreThanTwoReps value).

(** [s.replace(/\D/g, empty)]: every character that is not a digit
    removed. *)
Fixpoint remove_non_digits (s : string) : string :=
  match s with
  | EmptyString => EmptyString
  | String c rest =>
      if negb (digit c) then remove_non_digits rest
      else String c (remove_non_digits rest)
  end.

Definition with_values (f : gmap nat string -> gmap nat string) (p : page)
  : page :=
  mkPage (document p) (f (values p)) (error_class p) (label_error p)
         (form_error_state p) (messages p) (commands p).

Definition NumericOnlyAutoFormatBehavior (element : domElement) : M unit :=
  let* value := val element in
  modify (with_values (insert (node element) (remove_non_digits value))).

(** ** Definitions used to state further properties *)

(** The words of a regular expression. *)
Inductive lang : re -> string -> Prop :=
| lang_eps : lang Eps EmptyString
| lang_class (p : ascii -> bool) (c : ascii) :
    p c = true -> lang (Class p) (String c EmptyString)
| lang_cat (r1 r2 : re) (s1 s2 : string) :
    lang r1 s1 -> lang r2 s2 -> lang (Cat r1 r2) (s1 ++ s2)
| lang_alt_l (r1 r2 : re) (s : string) : lang r1 s -> lang (Alt r1 r2) s
| lang_alt_r (r1 r2 : re) (s : string) : lang r2 s -> lang (Alt r1 r2) s
| lang_star_nil (r : re) : lang (Star r) EmptyString
| lang_star_cons (r : re) (s1 s2 : string) :
    lang r s1 -> lang (Star r) s2 -> lang (Star r) (s1 ++ s2).

(** The characters of a string. *)
Definition chars (s : string) : list ascii := list_ascii_of_string s.


(** [n] characters, each in the class [p]. *)
Definition run_of (p : ascii -> bool) (n : nat) (s : string) : Prop :=
  String.length s = n /\ forallb p (chars s) = true.

(** Nothing, or one dash. *)
Definition dash_or_nothing (s : string) : Prop :=
  s = EmptyString \/ s = "-"%string.

(** [needle] stands somewhere in [haystack]. *)
Definition occurs (needle haystack : string) : Prop :=
  exists pre post, haystack = (pre ++ needle ++ post)%string.

(** Three runs of digits, [n1], [n2] and [n3] long, with a dash or
    nothing between them. *)
Definition dashed_digits (n1 n2 n3 : nat) (v : string) : Prop :=
  exists a d1 b d2 c,
    v = (a ++ d1 ++ b ++ d2 ++ c)%string
    /\ run_of digit n1 a /\ dash_or_nothing d1
    /\ run_of digit n2 b /\ dash_or_nothing d2
    /\ run_of digit n3 c.

(** The characters of the part of a mail address after the [@]. *)
Definition email_domain_char (c : ascii) : bool :=
  alnum c || Ascii.eqb c "-" || Ascii.eqb c ".".

(** A command that sets an error. *)
Definition is_setError (c : command) : Prop :=
  match c with
  | setError _ _ => True
  | clearError _ => False
  end.

(** From [p] to [p'] errors were only set: no class [error] and no class
    [form-error-state] was taken away, and the commands issued are
    set-error commands. *)
Definition only_sets (p p' : page) : Prop :=
  error_class p ⊆ error_class p'
  /\ form_error_state p ⊆ form_error_state p'
  /\ exists issued, commands p' = commands p ++ issued
                    /\ Forall is_setError issued.

(** The message that [bindFieldValidationArray] sets on a failure: the
    one it was given, or the empty one. *)
Definition report_text (r : report) : string :=
  match r with
  | Message text => text
  | Report _ => EmptyString
  end.

(** The classes of a page without the commands issued: what the page
    shows. *)
Definition shown (p : page)
  : gset nat * gset nat * gset nat * gmap nat (list string) :=
  (error_class p, label_error p, form_error_state p, messages p).

(** Every input in error stands in a form that carries the class
    [form-error-state]. *)
Definition forms_flagged (p : page) : Prop :=
  forall g S, In g (document p) -> is_input g = true ->
              closest_form g = Some S -> node g ∈ error_class p ->
              S ∈ form_error_state p.

(** The element is described in the page as it is given: elements of the
    page with its [node] have its form. *)
Definition known_as (p : page) (element : domElement) : Prop :=
  forall g, In g (document p) -> node g = node element ->
            closest_form g = closest_form element.

(** Unfolds the plumbing of a computation on the page. *)
Ltac run_page := unfold bind, modify, gets, ret, lift; simpl.

(** * Properties *)

(** ** The rule evaluator *)

Section Evaluator.

Implicit Types (R : list bool) (errors : bool).

(** With [halt_on_error] the loop ends at the first [false]. *)
Lemma ruleset_loop_halt R (error_array : list bool) errors :
  ruleset_loop (Bool false) (Bool true) R error_array errors =
  if forallb id R then Finished (error_array ++ R) errors else Halted.
Proof.
  revert error_array errors.
  induction R as [|my_result rest IH]; intros error_array errors; simpl.
  - by rewrite app_nil_r.
  - destruct my_result; simpl; [|done].
    rewrite IH. by rewrite <- app_assoc.
Qed.

(** Without it the loop reaches the end of the array; [errors] is set
    when a result is [false] and the results are not asked for. *)
Lemma ruleset_loop_no_halt (return_errors halt_on_error : flag) R
      (error_array : list bool) errors :
  strict_true halt_on_error = false ->
  ruleset_loop return_errors halt_on_error R error_array errors =
  Finished (error_array ++ R)
           (errors || (negb (strict_true return_errors) && negb (forallb id R))).
Proof.
  intros Hhalt. revert error_array errors.
  induction R as [|my_result rest IH]; intros error_array errors; simpl.
  - rewrite app_nil_r. by destruct errors, (strict_true return_errors).
  - rewrite Hhalt. simpl. rewrite IH, <- app_assoc. simpl. f_equal.
    by destruct my_result, errors, (strict_true return_errors),
                (forallb id rest).
Qed.

Lemma forallb_id_true R : forallb id R = true <-> Forall (fun r => r = true) R.
Proof.
  induction R as [|r rest IH]; simpl.
  - split; [constructor | done].
  - rewrite andb_true_iff, IH. split.
    + intros [Hr Hrest]. by constructor.
    + intros H. inversion H; subst. done.
Qed.

(** [forallb id R] is [false] exactly when [R] has a first [false]. *)
Lemma forallb_id_false R :
  forallb id R = false <->
  exists i : nat, R !! i = Some false
                  /\ forall j : nat, (j < i)%nat -> R !! j = Some true.
Proof.
  induction R as [|r rest IH]; simpl.
  - split; [done | intros (i & Hi & _); done].
  - destruct r; simpl.
    + rewrite IH. split.
      * intros (i & Hi & Hlt). exists (S i). split; [done|].
        intros [|j] Hj; [done|]. apply Hlt. lia.
      * intros ([|i] & Hi & Hlt); [done|]. exists i. split; [done|].
        intros j Hj. apply (Hlt (S j)). lia.
    + split; [|done]. intros _. exists 0%nat. split; [done|]. lia.
Qed.

Lemma runValidationRuleset_halt R :
  runValidationRuleset R (Bool false) (Bool true) = Verdict (forallb id R).
Proof.
  unfold runValidationRuleset. rewrite ruleset_loop_halt.
  by destruct (forallb id R).
Qed.

(** C1: in short-circuit mode ([return_errors = false],
    [halt_on_error = true]) the result is [false] exactly when some entry
    is [false] with every entry before it [true], it is [true] exactly
    when every entry is [true], and it is [true] on the empty sequence. *)
Theorem runValidationRuleset_short_circuit R :
  (runValidationRuleset R (Bool false) (Bool true) = Verdict false
   <-> exists i : nat, R !! i = Some false
                       /\ forall j : nat, (j < i)%nat -> R !! j = Some true)
  /\ (runValidationRuleset R (Bool false) (Bool true) = Verdict true
      <-> Forall (fun r => r = true) R)
  /\ runValidationRuleset [] (Bool false) (Bool true) = Verdict true.
Proof.
  rewrite runValidationRuleset_halt. split; [|split].
  - rewrite <- forallb_id_false. split; [congruence | by intros ->].
  - rewrite <- forallb_id_true. split; [congruence | by intros ->].
  - reflexivity.
Qed.

(** C2: with [return_errors = false] and [halt_on_error = false] the
    result is the conjunction of the entries: [true] exactly when every
    entry is [true]. *)
Theorem runValidationRuleset_aggregated R :
  runValidationRuleset R (Bool false) (Bool false) = Verdict (forallb id R)
  /\ (runValidationRuleset R (Bool false) (Bool false) = Verdict true
      <-> Forall (fun r => r = true) R).
Proof.
  assert (runValidationRuleset R (Bool false) (Bool false)
          = Verdict (forallb id R)) as Hrun.
  { unfold runValidationRuleset. rewrite ruleset_loop_no_halt by done.
    simpl. by rewrite negb_involutive. }
  split; [done|]. rewrite Hrun, <- forallb_id_true.
  split; [congruence | by intros ->].
Qed.

(** C5: with [return_errors = true], and [halt_on_error] not [true], the
    result is the array of the entries, in their order; the empty array
    for the empty sequence. *)
Theorem runValidationRuleset_raw R (halt_on_error : flag) :
  halt_on_error <> Bool true ->
  runValidationRuleset R (Bool true) halt_on_error = Results R.
Proof.
  intros Hhalt. unfold runValidationRuleset.
  rewrite ruleset_loop_no_halt.
  - reflexivity.
  - by destruct halt_on_error as [|[]].
Qed.

Lemma runValidationRuleset_raw_witness :
  runValidationRuleset [true; false; true] (Bool true) (Bool false)
  = Results [true; false; true]
  /\ runValidationRuleset [] (Bool true) Undefined = Results [].
Proof.
  split.
  - apply (runValidationRuleset_raw [true; false; true] (Bool false)).
    discriminate.
  - apply (runValidationRuleset_raw [] Undefined). discriminate.
Defined.

(** The two modes together: the loop is left at the first [false], and
    a boolean comes back although the results were asked for. *)
Example runValidationRuleset_raw_and_halt :
  runValidationRuleset [true; false; true] (Bool true) (Bool true)
  = Verdict false.
Proof. reflexivity. Qed.

End Evaluator.

(** ** The scope error tracker *)

Section ScopeErrorTracker.

Implicit Types (p : page) (element f g : domElement).

Lemma count_others_from element (l : list domElement) (count : Z) :
  0 <= count ->
  (fold_left
     (fun count value =>
        if negb (Nat.eqb (node value) (node element)) then count + 1 else count)
     l count >? 0)
  = (count >? 0)
    || existsb (fun v => negb (Nat.eqb (node v) (node element))) l.
Proof.
  revert count. induction l as [|v l IH]; intros count Hcount; simpl.
  - by rewrite orb_false_r.
  - destruct (negb (Nat.eqb (node v) (node element))); simpl.
    + rewrite IH by lia. rewrite orb_true_r.
      replace (count + 1 >? 0) with true; [done|].
      symmetry. apply Z.gtb_lt. lia.
    + by apply IH.
Qed.

Lemma count_others_pos element (l : list domElement) :
  (count_others element l >? 0)
  = existsb (fun v => negb (Nat.eqb (node v) (node element))) l.
Proof. unfold count_others. by rewrite count_others_from. Qed.

Lemma existsb_filter {A : Type} (keep test : A -> bool) (l : list A) :
  existsb test (List.filter keep l) = existsb (fun a => keep a && test a) l.
Proof.
  induction l as [|a l IH]; simpl; [done|].
  destruct (keep a); simpl; by rewrite IH.
Qed.

(** [otherErrorsExist] returns [other_errors] and hands the page back. *)
Lemma otherErrorsExist_run element p :
  otherErrorsExist element p = (Returned (other_errors p element), p).
Proof.
  unfold otherErrorsExist, other_errors, find_input_error, bind, gets, ret.
  rewrite count_others_pos.
  destruct (closest_form element) as [fm|]; simpl; [|done].
  rewrite existsb_filter. by destruct (existsb _ _).
Qed.

Lemma other_errors_true p element :
  other_errors p element = true <->
  exists g fm, In g (document p) /\ closest_form element = Some fm
               /\ is_input g = true /\ closest_form g = Some fm
               /\ node g ∈ error_class p /\ node g <> node element.
Proof.
  unfold other_errors. destruct (closest_form element) as [fm|].
  - rewrite existsb_exists. split.
    + intros (g & Hin & Hg).
      rewrite !andb_true_iff, !bool_decide_eq_true, negb_true_iff in Hg.
      destruct Hg as [[[Hinput Hform] Herr] Hne].
      exists g, fm. repeat split; try done.
      by apply Nat.eqb_neq.
    + intros (g & fm' & Hin & Hfm & Hinput & Hform & Herr & Hne).
      injection Hfm as <-. exists g. split; [done|].
      rewrite !andb_true_iff, !bool_decide_eq_true, negb_true_iff.
      repeat split; try done. by apply Nat.eqb_neq.
  - split; [done|]. by intros (g & fm & _ & Hfm & _).
Qed.



(** C9: [otherErrorsExist] is a query: it returns a boolean, and the page
    it hands back is the page it was given, classes, values, messages and
    commands. *)
Theorem otherErrorsExist_pure element p :
  snd (otherErrorsExist element p) = p
  /\ exists b : bool, fst (otherErrorsExist element p) = Returned b.
Proof.
  rewrite otherErrorsExist_run. simpl. split; [reflexivity|].
  by exists (other_errors p element).
Qed.

End ScopeErrorTracker.


(** ** The error state functions *)

Section ErrorState.

Implicit Types (p : page) (element field : domElement).

Lemma other_errors_ext p q element :
  document p = document q -> error_class p = error_class q ->
  other_errors p element = other_errors q element.
Proof. unfold other_errors. by intros -> ->. Qed.

Lemma clear_messages_keeps element p :
  document (clear_messages element p) = document p
  /\ values (clear_messages element p) = values p
  /\ error_class (clear_messages element p) = error_class p
  /\ label_error (clear_messages element p) = label_error p
  /\ form_error_state (clear_messages element p) = form_error_state p
  /\ commands (clear_messages element p) = commands p.
Proof.
  unfold clear_messages. destruct (form_item element) as [item|]; [|done].
  by destruct (messages p !! item).
Qed.

Lemma set_messages_keeps message element p :
  document (set_messages message element p) = document p
  /\ values (set_messages message element p) = values p
  /\ error_class (set_messages message element p) = error_class p
  /\ label_error (set_messages message element p) = label_error p
  /\ form_error_state (set_messages message element p) = form_error_state p
  /\ commands (set_messages message element p) = commands p.
Proof.
  unfold set_messages. destruct (form_item element) as [item|]; [|done].
  by destruct (default [] (messages p !! item)).
Qed.

Lemma recoverErrorState_returns element p :
  fst (recoverErrorState element p) = Returned tt.
Proof.
  unfold recoverErrorState. run_page. rewrite otherErrorsExist_run.
  destruct (other_errors _ element); simpl; [done|].
  by destruct (closest_form element).
Qed.

(** What [recoverErrorState] leaves: the field without the class [error],
    one more command, the tree and the values as they were, and the class
    [form-error-state] on the forms that had it, the form of the field
    only when [otherErrorsExist] says so. *)
Lemma recoverErrorState_page element p :
  let p' := snd (recoverErrorState element p) in
  document p' = document p
  /\ values p' = values p
  /\ error_class p' = error_class p ∖ {[node element]}
  /\ commands p' = commands p ++ [clearError (node element)]
  /\ form_error_state p' =
     (if other_errors p' element then form_error_state p
      else match closest_form element with
           | Some my_form => form_error_state p ∖ {[my_form]}
           | None => form_error_state p
           end).
Proof.
  unfold recoverErrorState. run_page. rewrite otherErrorsExist_run.
  match goal with |- context [other_errors ?q element] => set (p1 := q) end.
  assert (forall q, document q = document p1 -> error_class q = error_class p1 ->
                    other_errors q element = other_errors p1 element) as Hext.
  { intros q Hd He. by apply other_errors_ext. }
  destruct (other_errors p1 element) eqn:Hothers; simpl.
  - destruct (clear_messages_keeps element p1) as (Hd & Hv & He & _ & Hf & Hc).
    rewrite Hd, Hv, He, Hc, Hf, (Hext _ Hd He). done.
  - destruct (closest_form element) as [my_form|] eqn:Hform; simpl.
    + match goal with |- context [clear_messages element ?q] => set (p2 := q) end.
      destruct (clear_messages_keeps element p2) as (Hd & Hv & He & _ & Hf & Hc).
      rewrite Hd, Hv, He, Hc, Hf, (Hext _ Hd He). done.
    + destruct (clear_messages_keeps element p1) as (Hd & Hv & He & _ & Hf & Hc).
      rewrite Hd, Hv, He, Hc, Hf, (Hext _ Hd He). done.
Qed.

Lemma setErrorState_returns element message p :
  fst (setErrorState element message p) = Returned tt.
Proof.
  unfold setErrorState. run_page.
  destruct (existsb _ (label_items element)); simpl;
    by destruct (closest_form element).
Qed.

(** What [setErrorState] leaves: the field with the class [error] and one
    more command. *)
Lemma setErrorState_page element message p :
  let p' := snd (setErrorState element message p) in
  document p' = document p
  /\ values p' = values p
  /\ error_class p' = {[node element]} ∪ error_class p
  /\ commands p' = commands p ++ [setError (node element) message].
Proof.
  unfold setErrorState. run_page.
  destruct (existsb _ (label_items element)); simpl;
    destruct (closest_form element); simpl;
    match goal with |- context [set_messages message element ?q] =>
      destruct (set_messages_keeps message element q) as (Hd & Hv & He & _ & _ & Hc)
    end; by rewrite Hd, Hv, He, Hc.
Qed.

Lemma bindValidationError_pass field error_message p :
  bindValidationError field true error_message p = (Returned true, p).
Proof. reflexivity. Qed.

Lemma bindValidationError_fail field error_message p :
  bindValidationError field false error_message p
  = (Returned false, snd (setErrorState field error_message p)).
Proof.
  unfold bindValidationError. run_page.
  pose proof (setErrorState_returns field error_message p) as Hret.
  by destruct (setErrorState field error_message p) as [[[]|] p'].
Qed.

(** Every rule passes, and the argument is a message or [false]: the
    field recovers. *)
Lemma bindFieldValidationArray_pass field (R : list bool) (r : report) p :
  forallb id R = true -> acts_on_field r ->
  bindFieldValidationArray field R r p
  = (Returned true, snd (recoverErrorState field p)).
Proof.
  intros HR Hr. unfold bindFieldValidationArray.
  rewrite runValidationRuleset_halt, HR.
  pose proof (recoverErrorState_returns field p) as Hret.
  destruct Hr as [->|[text ->]]; run_page;
    by destruct (recoverErrorState field p) as [[[]|] p'].
Qed.

(** Some rule fails, and the argument is a message: the error is set
    with that message. *)
Lemma bindFieldValidationArray_fail field (R : list bool) (text : string) p :
  forallb id R = false ->
  bindFieldValidationArray field R (Message text) p
  = (Returned false, snd (setErrorState field text p)).
Proof.
  intros HR. unfold bindFieldValidationArray.
  rewrite runValidationRuleset_halt, HR. run_page.
  pose proof (setErrorState_returns field text p) as Hret.
  by destruct (setErrorState field text p) as [[[]|] p'].
Qed.

(** With [true], or with nothing, as the argument: [false], and the page
    as it was. *)
Lemma bindFieldValidationArray_report field (R : list bool) (f : flag) p :
  strict_false f = false ->
  bindFieldValidationArray field R (Report f) p = (Returned false, p).
Proof.
  intros Hf. unfold bindFieldValidationArray.
  rewrite runValidationRuleset_halt, Hf. simpl.
  by rewrite andb_false_r.
Qed.

End ErrorState.

(** ** The field validator *)

Section FieldValidator.

Implicit Types (p : page) (field : domElement) (R : list bool).

(** C3, as the code has it: when every rule passes and
    [bindFieldValidationArray] was given a message or [false], it returns
    [true], the field loses its error state, the clear-error command is
    issued, and the scope error tracker decides on the form: the form of
    the field keeps the class [form-error-state] exactly when it had it
    and another [input] of the form carries error state.
    [bindValidationError] on a passing rule returns [true] and leaves the
    page as it was. *)
Theorem pass_recovers_error_state p field R (r : report)
        (error_message : string) :
  Forall (fun b => b = true) R ->
  acts_on_field r ->
  (exists p',
      bindFieldValidationArray field R r p = (Returned true, p')
      /\ (node field ∉ error_class p')
      /\ commands p' = commands p ++ [clearError (node field)]
      /\ forall S, closest_form field = Some S ->
                   (S ∈ form_error_state p'
                    <-> S ∈ form_error_state p
                        /\ exists g, In g (document p)
                                     /\ is_input g = true
                                     /\ closest_form g = Some S
                                     /\ node g <> node field
                                     /\ node g ∈ error_class p))
  /\ bindValidationError field true error_message p = (Returned true, p).
Proof.
  intros HR%forallb_id_true Hr. split; [|reflexivity].
  exists (snd (recoverErrorState field p)).
  destruct (recoverErrorState_page field p) as (Hdoc & _ & Herr & Hcmd & Hform).
  split; [by apply bindFieldValidationArray_pass|].
  split.
  { rewrite Herr. intros [_ Hnot]%elem_of_difference.
    apply Hnot. by apply elem_of_singleton. }
  split; [done|].
  intros S HS.
  assert (other_errors (snd (recoverErrorState field p)) field = true
          <-> exists g, In g (document p) /\ is_input g = true
                        /\ closest_form g = Some S /\ node g <> node field
                        /\ node g ∈ error_class p) as Hothers.
  { rewrite other_errors_true, Hdoc, Herr. split.
    - intros (g & fm & Hin & Hfm & Hinput & Hg & Hgerr & Hne).
      rewrite HS in Hfm. injection Hfm as <-.
      apply elem_of_difference in Hgerr as [Hgerr _]. by exists g.
    - intros (g & Hin & Hinput & Hg & Hne & Hgerr). exists g, S.
      repeat split; try done. apply elem_of_difference. split; [done|].
      intros Hsame%elem_of_singleton. done. }
  rewrite <- Hothers, Hform, HS.
  destruct (other_errors _ field).
  - split; [done | by intros [? _]].
  - split; [|by intros [_ ?]].
    intros [_ Hnot]%elem_of_difference. destruct Hnot.
    by apply elem_of_singleton.
Qed.

Lemma pass_recovers_error_state_witness :
  (exists p',
      bindFieldValidationArray field_a [true; true] (Message "Incorrect Format")
        (sample_page ∅ {[10%nat; 11%nat]} {[1%nat]}) = (Returned true, p')
      /\ (node field_a ∉ error_class p')
      /\ commands p' = [clearError 10%nat]
      /\ forall S, closest_form field_a = Some S ->
                   (S ∈ form_error_state p'
                    <-> S ∈ ({[1%nat]} : gset nat)
                        /\ exists g, In g [field_a; field_b]
                                     /\ is_input g = true
                                     /\ closest_form g = Some S
                                     /\ node g <> node field_a
                                     /\ node g ∈ ({[10%nat; 11%nat]} : gset nat)))
  /\ bindValidationError field_a true "Field is required"
       (sample_page ∅ {[10%nat; 11%nat]} {[1%nat]})
     = (Returned true, sample_page ∅ {[10%nat; 11%nat]} {[1%nat]}).
Proof.
  assert (Forall (fun b => b = true) [true; true]) as Hrules
    by (repeat constructor).
  assert (acts_on_field (Message "Incorrect Format")) as Hmode
    by (right; by exists "Incorrect Format"%string).
  exact (pass_recovers_error_state
           (sample_page ∅ {[10%nat; 11%nat]} {[1%nat]}) field_a [true; true]
           (Message "Incorrect Format") "Field is required" Hrules Hmode).
Defined.

(** C3 as the claim has it fails on the single-rule path: a field in
    error whose rule now passes stays in error, and the page is as it was
    (no command, the class [form-error-state] still on the form); the
    same holds through [validateRequiredField]. *)
Lemma pass_keeps_error_state_single_rule :
  let p := sample_page {[10%nat := "x"%string]} {[10%nat]} {[1%nat]} in
  bindValidationError field_a true "Field is required" p = (Returned true, p)
  /\ validateRequiredField field_a "Field is required" p = (Returned true, p)
  /\ node field_a ∈ error_class p
  /\ commands p = [].
Proof.
  simpl. split; [reflexivity|]. split; [reflexivity|].
  split; [by apply elem_of_singleton | reflexivity].
Qed.

(** C10: with [true] as [report_error_message], [bindFieldValidationArray]
    returns [false] on every array of results, also when every rule
    passes, and the page is as it was: neither [recoverErrorState] nor
    [setErrorState] has run. So does [handleZipField] answer [false]. *)
Theorem bindFieldValidationArray_aggregate p field R :
  bindFieldValidationArray field R (Report (Bool true)) p = (Returned false, p)
  /\ forall error_on_blank required : flag,
      fst (handleZipField field error_on_blank required p) = Returned false.
Proof.
  split; [by apply bindFieldValidationArray_report|].
  intros error_on_blank required.
  unfold handleZipField, validateZipField, validateRequiredField, val.
  run_page.
  set (rules := [containsOnlyNumeric _; lengthValid _ _ _ _]).
  assert (exists b q, bindFieldValidationArray field rules
                        (Message "Incorrect Format") p = (Returned b, q))
    as (b & q & ->).
  { destruct (forallb id rules) eqn:Hrules.
    - eexists _, _. apply bindFieldValidationArray_pass; [done|].
      right. by eexists.
    - eexists _, _. by apply bindFieldValidationArray_fail. }
  destruct (strict_true required); run_page.
  - destruct (fieldNotEmpty (value_of q field)).
    + rewrite bindValidationError_pass.
      by rewrite bindFieldValidationArray_report.
    + rewrite bindValidationError_fail.
      by rewrite bindFieldValidationArray_report.
  - by rewrite bindFieldValidationArray_report.
Qed.

End FieldValidator.

(** ** The predicates and the rule sets built from them *)

Section Predicates.

Implicit Types (p : page) (field : domElement).

Lemma prefix_spec (s1 s2 : string) :
  String.prefix s1 s2 = true <-> exists post, s2 = (s1 ++ post)%string.
Proof.
  revert s2. induction s1 as [|a s1 IH]; intros s2; simpl.
  - destruct s2; split; try done; intros _; by eexists.
  - destruct s2 as [|b s2]; simpl.
    + split; [done | by intros [post Hpost]].
    + destruct (ascii_dec a b) as [->|Hne].
      * rewrite IH. split.
        -- intros [post ->]. by exists post.
        -- intros [post Hpost]. simpl in Hpost. injection Hpost as ->.
           by exists post.
      * split; [done|]. intros [post Hpost]. simpl in Hpost.
        injection Hpost as Hab _. by destruct Hne.
Qed.

Lemma indexOf_from_unfold (needle haystack : string) (pos : Z) :
  indexOf_from needle haystack pos =
  if String.prefix needle haystack then pos
  else match haystack with
       | EmptyString => -1
       | String _ rest => indexOf_from needle rest (pos + 1)
       end.
Proof. by destruct haystack. Qed.

(** [indexOf] answers [-1] exactly when the needle does not occur. *)
Lemma indexOf_from_found (needle haystack : string) (pos : Z) :
  0 <= pos ->
  indexOf_from needle haystack pos <> -1
  <-> exists pre post, haystack = (pre ++ needle ++ post)%string.
Proof.
  revert pos. induction haystack as [|c rest IH]; intros pos Hpos;
    rewrite indexOf_from_unfold.
  - destruct (String.prefix needle EmptyString) eqn:Hprefix.
    + split; [|intros _; lia]. intros _.
      apply prefix_spec in Hprefix as [post Hpost].
      by exists EmptyString, post.
    + split; [done|]. intros (pre & post & Hocc).
      destruct pre; [|done]. simpl in Hocc.
      assert (String.prefix needle EmptyString = true) as Habs
        by (apply prefix_spec; by exists post).
      congruence.
  - destruct (String.prefix needle (String c rest)) eqn:Hprefix.
    + split; [|intros _; lia]. intros _.
      apply prefix_spec in Hprefix as [post Hpost].
      by exists EmptyString, post.
    + rewrite IH by lia. split.
      * intros (pre & post & ->). by exists (String c pre), post.
      * intros (pre & post & Hocc). destruct pre as [|c' pre]; simpl in Hocc.
        -- assert (String.prefix needle (String c rest) = true) as Habs
             by (apply prefix_spec; by exists post).
           congruence.
        -- injection Hocc as _ ->. by exists pre, post.
Qed.

Lemma str_length_zero (s : string) : (str_length s =? 0) = true <-> s = EmptyString.
Proof.
  unfold str_length. by destruct s.
Qed.

(** The containment rule on a user id that is not empty: it fails exactly
    when the user id occurs in the password. *)
Lemma doesNotContainValue_fails (needle haystack : string) :
  needle <> EmptyString ->
  doesNotContainValue needle haystack (Bool false) = false
  <-> exists pre post, haystack = (pre ++ needle ++ post)%string.
Proof.
  intros Hneedle. unfold doesNotContainValue.
  destruct (str_length needle =? 0) eqn:Hlen.
  { by apply str_length_zero in Hlen. }
  simpl. unfold indexOf. rewrite <- (indexOf_from_found needle haystack 0) by lia.
  destruct (indexOf_from needle haystack 0 =? -1) eqn:Hindex.
  - apply Z.eqb_eq in Hindex. split; [done | by intros ?].
  - apply Z.eqb_neq in Hindex. done.
Qed.

(** C6: with [error_on_blank = false] the empty string passes
    [lengthValid] for every [min] and [max], and passes [phoneValid],
    [emailValid] and [ssnValid]; [validateZipField] on an empty field
    returns [true], leaves the field without error state and issues no
    set-error command. *)
Theorem blank_value_passes :
  (forall min max : number, lengthValid EmptyString min max (Bool false) = true)
  /\ phoneValid EmptyString (Bool false) = Returned true
  /\ emailValid EmptyString (Bool false) = true
  /\ ssnValid EmptyString (Bool false) = true
  /\ forall p field (error_message : string),
      value_of p field = EmptyString ->
      exists p',
        validateZipField field error_message (Bool false) p = (Returned true, p')
        /\ (node field ∉ error_class p')
        /\ commands p' = commands p ++ [clearError (node field)].
Proof.
  split; [by intros [?|] [?|]|]. do 3 (split; [reflexivity|]).
  intros p field error_message Hvalue.
  exists (snd (recoverErrorState field p)).
  destruct (recoverErrorState_page field p) as (_ & _ & Herr & Hcmd & _).
  split; [|split; [|done]].
  - unfold validateZipField, val. run_page. rewrite Hvalue.
    apply bindFieldValidationArray_pass; [reflexivity|].
    right. by eexists.
  - rewrite Herr. intros [_ Hnot]%elem_of_difference.
    apply Hnot. by apply elem_of_singleton.
Qed.

Lemma blank_value_passes_witness :
  exists p',
    validateZipField field_a "Incorrect Format" (Bool false)
                     (sample_page ∅ {[10%nat]} {[1%nat]}) = (Returned true, p')
    /\ (node field_a ∉ error_class p')
    /\ commands p' = [clearError 10%nat].
Proof.
  exact (proj2 (proj2 (proj2 (proj2 blank_value_passes)))
           (sample_page ∅ {[10%nat]} {[1%nat]}) field_a
           "Incorrect Format"%string eq_refl).
Defined.

(** C7: the containment rule of the password looks for the user id in the
    password, not for the password in the user id. The password abc12345
    with the user id abc fails, for want of an upper case letter; the
    password Abc12345 with the user id Abc12345xyz passes. *)
Theorem password_containment_directional :
  (forall userId password : string,
      userId <> EmptyString ->
      doesNotContainValue userId password (Bool false) = false
      <-> exists pre post, password = (pre ++ userId ++ post)%string)
  /\ (forall p field user_id_field (error_message : string),
         value_of p field = "abc12345"%string ->
         value_of p user_id_field = "abc"%string ->
         lengthValid "abc12345" (Some 8) (Some 128) (Bool true) = true
         /\ containsLowerAndUppercase "abc12345" = false
         /\ validatePasswordField field user_id_field error_message p
            = (Returned false, snd (setErrorState field error_message p)))
  /\ (forall p field user_id_field (error_message : string),
         value_of p field = "Abc12345"%string ->
         value_of p user_id_field = "Abc12345xyz"%string ->
         doesNotContainValue "Abc12345xyz" "Abc12345" (Bool false) = true
         /\ validatePasswordField field user_id_field error_message p
            = (Returned true, snd (recoverErrorState field p))).
Proof.
  split; [exact doesNotContainValue_fails|]. split.
  - intros p field user_id_field error_message Hvalue Huser.
    do 2 (split; [by vm_compute|]).
    unfold validatePasswordField, val. run_page. rewrite Hvalue, Huser.
    apply bindFieldValidationArray_fail. by vm_compute.
  - intros p field user_id_field error_message Hvalue Huser.
    split; [by vm_compute|].
    unfold validatePasswordField, val. run_page. rewrite Hvalue, Huser.
    apply bindFieldValidationArray_pass; [by vm_compute|].
    right. by eexists.
Qed.

Lemma password_containment_directional_witness :
  (doesNotContainValue "abc" "xabc1" (Bool false) = false
   <-> exists pre post, "xabc1"%string = (pre ++ "abc" ++ post)%string)
  /\ fst (validatePasswordField field_a field_b "Invalid password"
           (sample_page {[10%nat := "abc12345"%string; 11%nat := "abc"%string]}
                        ∅ ∅))
     = Returned false
  /\ fst (validatePasswordField field_a field_b "Invalid password"
           (sample_page
              {[10%nat := "Abc12345"%string; 11%nat := "Abc12345xyz"%string]}
              {[10%nat]} {[1%nat]}))
     = Returned true.
Proof.
  destruct password_containment_directional as (Hrule & Hfail & Hpass).
  split; [apply (Hrule "abc"%string "xabc1"%string); discriminate|]. split.
  - destruct (Hfail
                (sample_page {[10%nat := "abc12345"%string; 11%nat := "abc"%string]}
                             ∅ ∅)
                field_a field_b "Invalid password"%string)
      as (_ & _ & ->); reflexivity.
  - destruct (Hpass
                (sample_page
                   {[10%nat := "Abc12345"%string; 11%nat := "Abc12345xyz"%string]}
                   {[10%nat]} {[1%nat]})
                field_a field_b "Invalid password"%string)
      as (_ & ->); reflexivity.
Defined.

(** C8: on 111-111-1111 the format rule and the length rule pass and the
    same-digit rule fails; all three are computed, so [phoneValid] answers
    [false] whatever [error_on_blank] is, and [validatePhoneField] returns
    [false] and sets the error on the field. *)
Theorem phone_same_digit_fails :
  phone_ruleOne "111-111-1111" = true
  /\ phone_ruleTwo "111-111-1111" = true
  /\ phone_ruleThere "111-111-1111" = Returned false
  /\ (forall error_on_blank : flag,
         phoneValid "111-111-1111" error_on_blank = Returned false)
  /\ forall p field (error_message : string) (error_on_blank : flag),
      value_of p field = "111-111-1111"%string ->
      exists p',
        validatePhoneField field error_message error_on_blank p
        = (Returned false, p')
        /\ node field ∈ error_class p'
        /\ commands p' = commands p ++ [setError (node field) error_message].
Proof.
  do 3 (split; [by vm_compute|]).
  assert (forall error_on_blank : flag,
             phoneValid "111-111-1111" error_on_blank = Returned false) as Hphone.
  { by intros [|[]]; vm_compute. }
  split; [done|].
  intros p field error_message error_on_blank Hvalue.
  exists (snd (setErrorState field error_message p)).
  destruct (setErrorState_page field error_message p) as (_ & _ & Herr & Hcmd).
  split; [|split; [|done]].
  - unfold validatePhoneField, val. run_page. rewrite Hvalue, Hphone.
    apply bindValidationError_fail.
  - rewrite Herr. apply elem_of_union_l. by apply elem_of_singleton.
Qed.

Lemma phone_same_digit_fails_witness :
  exists p',
    validatePhoneField field_a "Incorrect Format" (Bool false)
      (sample_page {[10%nat := "111-111-1111"%string]} ∅ ∅)
    = (Returned false, p')
    /\ node field_a ∈ error_class p'
    /\ commands p' = [setError 10%nat "Incorrect Format"].
Proof.
  exact (proj2 (proj2 (proj2 (proj2 phone_same_digit_fails)))
           (sample_page {[10%nat := "111-111-1111"%string]} ∅ ∅) field_a
           "Incorrect Format"%string (Bool false) eq_refl).
Defined.

End Predicates.

(** ** The regular expressions: [test] against the words of the pattern *)

Section RegularExpressions.

Implicit Types (r : re) (s : string) (c : ascii) (p : ascii -> bool).

Lemma append_cons c s1 s2 :
  (String c s1 ++ s2)%string = String c (s1 ++ s2).
Proof. reflexivity. Qed.

Lemma append_nil_l s : (EmptyString ++ s)%string = s.
Proof. reflexivity. Qed.

Lemma append_nil_r s : (s ++ EmptyString)%string = s.
Proof.
  induction s as [|a s IH]; [done|]. by rewrite append_cons, IH.
Qed.

Lemma append_assoc s1 s2 s3 :
  ((s1 ++ s2) ++ s3)%string = (s1 ++ s2 ++ s3)%string.
Proof.
  induction s1 as [|a s1 IH]; [done|]. by rewrite !append_cons, IH.
Qed.

Lemma append_eq_nil s1 s2 :
  (s1 ++ s2)%string = EmptyString -> s1 = EmptyString /\ s2 = EmptyString.
Proof. by destruct s1. Qed.

Lemma lang_void_inv s : lang Void s -> False.
Proof. inversion 1. Qed.

Lemma lang_eps_inv s : lang Eps s -> s = EmptyString.
Proof. by inversion 1. Qed.

Lemma lang_class_inv p s :
  lang (Class p) s -> exists c, s = String c EmptyString /\ p c = true.
Proof. inversion 1; subst. by eexists. Qed.

Lemma lang_cat_inv r1 r2 s :
  lang (Cat r1 r2) s ->
  exists s1 s2, s = (s1 ++ s2)%string /\ lang r1 s1 /\ lang r2 s2.
Proof. inversion 1; subst. by eexists _, _. Qed.

Lemma lang_alt_inv r1 r2 s : lang (Alt r1 r2) s -> lang r1 s \/ lang r2 s.
Proof. inversion 1; subst; [by left | by right]. Qed.

Lemma lang_empty_nullable r s : lang r s -> s = EmptyString -> nullable r = true.
Proof.
  induction 1 as [| | r1 r2 s1 s2 _ IH1 _ IH2 | r1 r2 s _ IH | r1 r2 s _ IH
                 | | ]; intros Hs; simpl; try done.
  - apply append_eq_nil in Hs as [-> ->]. by rewrite IH1, IH2.
  - by rewrite IH.
  - rewrite IH by done. by apply orb_true_r.
Qed.

Lemma nullable_spec r : nullable r = true <-> lang r EmptyString.
Proof.
  split; [|intros H; by apply (lang_empty_nullable r EmptyString)].
  induction r as [| | p | r1 IH1 r2 IH2 | r1 IH1 r2 IH2 | r IH]; simpl;
    try done.
  - intros _. constructor.
  - intros [H1 H2]%andb_true_iff.
    apply (lang_cat r1 r2 EmptyString EmptyString); auto.
  - intros [H|H]%orb_true_iff; [apply lang_alt_l | apply lang_alt_r]; auto.
  - intros _. constructor.
Qed.

Lemma cat_spec r1 r2 s : lang (cat r1 r2) s <-> lang (Cat r1 r2) s.
Proof.
  assert (forall r, lang (Cat Void r) s <-> lang Void s) as Hvoid_l.
  { intros r. split; [|by intros ?%lang_void_inv].
    by intros (s1 & s2 & _ & ?%lang_void_inv & _)%lang_cat_inv. }
  assert (forall r, lang (Cat r Void) s <-> lang Void s) as Hvoid_r.
  { intros r. split; [|by intros ?%lang_void_inv].
    by intros (s1 & s2 & _ & _ & ?%lang_void_inv)%lang_cat_inv. }
  assert (forall r, lang (Cat Eps r) s <-> lang r s) as Heps_l.
  { intros r. split.
    - intros (s1 & s2 & Hs & H1 & H2)%lang_cat_inv.
      apply lang_eps_inv in H1. by subst s s1.
    - intros H. apply (lang_cat Eps r EmptyString s); [constructor | done]. }
  assert (forall r, lang (Cat r Eps) s <-> lang r s) as Heps_r.
  { intros r. split.
    - intros (s1 & s2 & Hs & H1 & H2)%lang_cat_inv.
      apply lang_eps_inv in H2. subst s s2. by rewrite append_nil_r.
    - intros H. rewrite <- (append_nil_r s).
      apply lang_cat; [done | constructor]. }
  destruct r1, r2; simpl;
    first [ reflexivity
          | symmetry; apply Hvoid_l | symmetry; apply Hvoid_r
          | symmetry; apply Heps_l | symmetry; apply Heps_r ].
Qed.

Lemma alt_spec r1 r2 s : lang (alt r1 r2) s <-> lang (Alt r1 r2) s.
Proof.
  assert (forall r, lang (Alt Void r) s <-> lang r s) as Hvoid_l.
  { intros r. split; [|by apply lang_alt_r].
    by intros [?%lang_void_inv|?]%lang_alt_inv. }
  assert (forall r, lang (Alt r Void) s <-> lang r s) as Hvoid_r.
  { intros r. split; [|by apply lang_alt_l].
    by intros [?|?%lang_void_inv]%lang_alt_inv. }
  destruct r1, r2; simpl;
    first [ reflexivity | symmetry; apply Hvoid_l | symmetry; apply Hvoid_r ].
Qed.

(** A word of [r1 r2] that starts with [c]: [c] starts the part of [r1],
    or that part is empty and [c] starts the part of [r2]. *)
Lemma lang_cat_cons r1 r2 c s :
  lang (Cat r1 r2) (String c s) <->
  (exists s1 s2, s = (s1 ++ s2)%string /\ lang r1 (String c s1) /\ lang r2 s2)
  \/ (lang r1 EmptyString /\ lang r2 (String c s)).
Proof.
  split.
  - intros (s1 & s2 & Hs & H1 & H2)%lang_cat_inv.
    destruct s1 as [|a s1].
    + rewrite append_nil_l in Hs. right. by subst.
    + rewrite append_cons in Hs. injection Hs as -> ->. left. by exists s1, s2.
  - intros [(s1 & s2 & -> & H1 & H2)|[H1 H2]].
    + by apply (lang_cat r1 r2 (String c s1) s2).
    + by apply (lang_cat r1 r2 EmptyString (String c s)).
Qed.

(** A word of [r*] that starts with [c] starts with a word of [r] that
    starts with [c]. *)
Lemma lang_star_cons_inv r c s :
  lang (Star r) (String c s) ->
  exists s1 s2, s = (s1 ++ s2)%string /\ lang r (String c s1) /\ lang (Star r) s2.
Proof.
  intros H. remember (Star r) as r' eqn:Hr. remember (String c s) as w eqn:Hw.
  revert s Hw.
  induction H as [| | | | | |r0 s1 s2 H1 _ H2 IH2]; intros s' Hw; try done.
  injection Hr as ->. destruct s1 as [|a s1].
  - rewrite append_nil_l in Hw. by apply IH2.
  - rewrite append_cons in Hw. injection Hw as -> <-. by exists s1, s2.
Qed.

Lemma deriv_spec r c s : lang (deriv c r) s <-> lang r (String c s).
Proof.
  revert s.
  induction r as [| | p | r1 IH1 r2 IH2 | r1 IH1 r2 IH2 | r IH]; intros s;
    simpl.
  - split; by intros ?%lang_void_inv.
  - split; [by intros ?%lang_void_inv | by intros ?%lang_eps_inv].
  - destruct (p c) eqn:Hp.
    + split.
      * intros ->%lang_eps_inv. by constructor.
      * intros (c' & [= <- ->] & _)%lang_class_inv. constructor.
    + split; [by intros ?%lang_void_inv|].
      intros (c' & [= <- ->] & Hp')%lang_class_inv. congruence.
  - rewrite lang_cat_cons. destruct (nullable r1) eqn:Hnull.
    + rewrite alt_spec. split.
      * intros [H|H]%lang_alt_inv.
        -- apply cat_spec in H as (s1 & s2 & -> & H1 & H2)%lang_cat_inv.
           left. exists s1, s2. by rewrite <- IH1.
        -- right. split; [by apply nullable_spec | by apply IH2].
      * intros [(s1 & s2 & -> & H1 & H2)|[_ H2]].
        -- apply lang_alt_l, cat_spec, lang_cat; [by apply IH1 | done].
        -- apply lang_alt_r. by apply IH2.
    + rewrite cat_spec. split.
      * intros (s1 & s2 & -> & H1 & H2)%lang_cat_inv.
        left. exists s1, s2. by rewrite <- IH1.
      * intros [(s1 & s2 & -> & H1 & H2)|[H1 _]].
        -- apply lang_cat; [by apply IH1 | done].
        -- apply nullable_spec in H1. congruence.
  - rewrite alt_spec. split.
    + intros [H|H]%lang_alt_inv;
        [apply lang_alt_l, IH1 | apply lang_alt_r, IH2]; done.
    + intros [H|H]%lang_alt_inv;
        [apply lang_alt_l, IH1 | apply lang_alt_r, IH2]; done.
  - rewrite cat_spec. split.
    + intros (s1 & s2 & -> & H1 & H2)%lang_cat_inv.
      apply (lang_star_cons r (String c s1) s2); [by apply IH | done].
    + intros (s1 & s2 & -> & H1 & H2)%lang_star_cons_inv.
      apply lang_cat; [by apply IH | done].
Qed.

(** The matcher decides the words of the pattern. *)
Lemma matches_spec r s : matches r s = true <-> lang r s.
Proof.
  revert r. induction s as [|c s IH]; intros r; simpl.
  - apply nullable_spec.
  - rewrite IH. apply deriv_spec.
Qed.

End RegularExpressions.

(** ** The predicates of layer 5, read on the characters of the value *)

Section CharacterPredicates.

Implicit Types (r : re) (s v : string) (c : ascii) (p : ascii -> bool).

Lemma chars_append s1 s2 : chars (s1 ++ s2) = chars s1 ++ chars s2.
Proof.
  unfold chars. induction s1 as [|a s1 IH]; [done|].
  rewrite append_cons. simpl. by rewrite IH.
Qed.

Lemma length_append s1 s2 :
  String.length (s1 ++ s2) = (String.length s1 + String.length s2)%nat.
Proof.
  induction s1 as [|a s1 IH]; [done|]. rewrite append_cons. simpl. by rewrite IH.
Qed.

Lemma length_chars s : List.length (chars s) = String.length s.
Proof. unfold chars. induction s as [|a s IH]; simpl; [done | by rewrite IH]. Qed.

Lemma chars_split c s :
  In c (chars s) -> exists pre post, s = (pre ++ String c post)%string.
Proof.
  unfold chars. induction s as [|a s IH]; simpl; [done|].
  intros [->|Hin].
  - by exists EmptyString, s.
  - destruct (IH Hin) as (pre & post & ->). by exists (String a pre), post.
Qed.

Lemma lang_any s : lang (Star (Class any_char)) s.
Proof.
  induction s as [|a s IH]; [constructor|].
  apply (lang_star_cons _ (String a EmptyString) s); [by constructor | done].
Qed.

(** A word of [p*] is made of characters of the class [p]. *)
Lemma lang_star_class p s :
  lang (Star (Class p)) s <-> forallb p (chars s) = true.
Proof.
  split.
  - intros H. remember (Star (Class p)) as r eqn:Hr.
    induction H as [| | | | | |r0 s1 s2 H1 _ H2 IH2]; try done.
    injection Hr as ->. apply lang_class_inv in H1 as (c & -> & Hc).
    rewrite append_cons, append_nil_l. unfold chars. simpl.
    rewrite Hc. by apply IH2.
  - unfold chars. induction s as [|a s IH]; simpl; [constructor|].
    intros [Ha Hs]%andb_true_iff.
    apply (lang_star_cons _ (String a EmptyString) s); [by constructor | auto].
Qed.

(** [test] with a pattern that is not anchored and is one class, once or
    more: some character of the value is in the class. *)
Lemma test_unanchored p v :
  test (unanchored p) v = existsb p (chars v).
Proof.
  apply eq_true_iff_eq. unfold test, unanchored. simpl.
  rewrite matches_spec, existsb_exists. split.
  - intros (s1 & s2 & -> & _ & H)%lang_cat_inv.
    apply lang_cat_inv in H as (s3 & s4 & -> & H & _).
    apply lang_cat_inv in H as (s5 & s6 & -> & (c & -> & Hc)%lang_class_inv & _).
    exists c. split; [|done].
    rewrite !chars_append. apply in_or_app. right.
    apply in_or_app. left. apply in_or_app. left. by left.
  - intros (c & (pre & post & ->)%chars_split & Hc).
    apply lang_cat; [apply lang_any|].
    change (String c post) with ((String c EmptyString ++ EmptyString) ++ post)%string.
    apply lang_cat; [|apply lang_any].
    apply lang_cat; [by constructor | constructor].
Qed.

Lemma negb_existsb_negb {A : Type} (f : A -> bool) (l : list A) :
  negb (existsb (fun a => negb (f a)) l) = forallb f l.
Proof.
  induction l as [|a l IH]; simpl; [done|].
  rewrite negb_orb, negb_involutive. by rewrite IH.
Qed.

Lemma containsOnlyNumeric_forallb v :
  containsOnlyNumeric v = forallb digit (chars v).
Proof.
  unfold containsOnlyNumeric. by rewrite test_unanchored, negb_existsb_negb.
Qed.

Lemma containsOnlyAlphaNumeric_forallb v :
  containsOnlyAlphaNumeric v = forallb alnum (chars v).
Proof.
  unfold containsOnlyAlphaNumeric.
  by rewrite test_unanchored, negb_existsb_negb.
Qed.

(** X1: The value holds only digits, or only letters and digits: every
    character is one; the empty value passes. *)
Theorem containsOnly_every_character v :
  (containsOnlyNumeric v = true
   <-> forall c, In c (chars v) -> digit c = true)
  /\ (containsOnlyAlphaNumeric v = true
      <-> forall c, In c (chars v) -> alnum c = true).
Proof.
  unfold containsOnlyNumeric, containsOnlyAlphaNumeric.
  rewrite !test_unanchored, !negb_existsb_negb, !forallb_forall. done.
Qed.

(** X2: The value holds a digit, an upper case letter, a lower case letter,
    or one of the characters 0-9, [!], [@], [?]: some character is one;
    the pair rules ask for both letters, or for one of them. *)
Theorem contains_some_character v :
  (containsNumber v = true <-> exists c, In c (chars v) /\ digit c = true)
  /\ (containsUppercase v = true <-> exists c, In c (chars v) /\ upper c = true)
  /\ (containsLowercase v = true <-> exists c, In c (chars v) /\ lower c = true)
  /\ (containsSpecialCharacters v = true
      <-> exists c, In c (chars v) /\ (digit c || one_of "!@?" c) = true)
  /\ (containsLowerAndUppercase v = true
      <-> (exists c, In c (chars v) /\ upper c = true)
          /\ (exists c, In c (chars v) /\ lower c = true))
  /\ (containsAtLeastOneAlpha v = true
      <-> exists c, In c (chars v) /\ (upper c || lower c) = true).
Proof.
  unfold containsNumber, containsUppercase, containsLowercase,
    containsSpecialCharacters, containsLowerAndUppercase,
    containsAtLeastOneAlpha, containsUppercase, containsLowercase.
  rewrite !test_unanchored, andb_true_iff, orb_true_iff, !existsb_exists.
  do 5 (split; [done|]). split.
  - intros [(c & Hin & Hc)|(c & Hin & Hc)]; exists c; rewrite Hc;
      [done | by rewrite orb_true_r].
  - intros (c & Hin & [Hc|Hc]%orb_true_iff); [left | right]; by exists c.
Qed.

End CharacterPredicates.

(** ** Lengths, containment and the dashed number formats *)

Section Formats.

Implicit Types (r : re) (s v : string) (c : ascii) (p : ascii -> bool).

Lemma lengthValid_spec v (min max : number) (fail_on_blank : flag) :
  lengthValid v min max fail_on_blank = true
  <-> (min = None /\ max = None)
      \/ (fail_on_blank <> Bool true /\ v = EmptyString)
      \/ ((forall m, min = Some m -> m <= str_length v)
          /\ (forall m, max = Some m -> str_length v <= m)).
Proof.
  unfold lengthValid.
  pose proof (str_length_zero v) as Hzero.
  assert (js_not fail_on_blank = true <-> fail_on_blank <> Bool true) as Hnot.
  { destruct fail_on_blank as [|[]]; simpl; split; congruence. }
  destruct min as [lo|], max as [hi|]; simpl;
    destruct (js_not fail_on_blank); simpl;
    destruct (str_length v =? 0) eqn:Hblank; simpl;
    try (destruct (Z.ltb_spec (str_length v) lo));
    try (destruct (Z.gtb_spec (str_length v) hi)); simpl;
    split; try done; try tauto.
  all: try (intros _; right; right; split; intros m [= <-]; lia).
  all: try (intros _; right; left; split; [by apply Hnot | by apply Hzero]).
  all: try (intros [[? ?]|[[Hf Hv]|[Hlo Hhi]]]; try done;
            [ first [ by apply Hnot in Hf
                    | apply Hzero in Hv; congruence ]
            | first [ specialize (Hlo _ eq_refl); lia
                    | specialize (Hhi _ eq_refl); lia ] ]).
  all: try (intros _; by left).
Qed.

Lemma fieldNotEmpty_spec v :
  fieldNotEmpty v = true <-> v <> EmptyString /\ str_length v <= 999999.
Proof.
  unfold fieldNotEmpty. rewrite lengthValid_spec. split.
  - intros [[? _]|[[? _]|[Hlo Hhi]]]; try done.
    specialize (Hlo _ eq_refl). specialize (Hhi _ eq_refl).
    split; [|done]. intros ->. unfold str_length in Hlo. simpl in Hlo. lia.
  - intros [Hv Hhi]. right. right. split; intros m [= <-]; [|done].
    unfold str_length. destruct v; [done|]. simpl. lia.
Qed.

(** X3: [lengthValid] for every way of giving the bounds: no bound at all
    passes everything; an empty value passes unless [fail_on_blank] is
    [true]; otherwise each bound that is given must hold. [fieldNotEmpty]
    is the bounds 1 and 999999 with [fail_on_blank]: a value longer than
    999999 characters counts as empty. *)
Theorem lengthValid_bounds v (min max : number) (fail_on_blank : flag) :
  (lengthValid v min max fail_on_blank = true
   <-> (min = None /\ max = None)
       \/ (fail_on_blank <> Bool true /\ v = EmptyString)
       \/ ((forall m, min = Some m -> m <= str_length v)
           /\ (forall m, max = Some m -> str_length v <= m)))
  /\ (fieldNotEmpty v = true
      <-> v <> EmptyString /\ str_length v <= 999999).
Proof. split; [apply lengthValid_spec | apply fieldNotEmpty_spec]. Qed.

Lemma doesNotContainValue_spec (needle haystack : string)
        (error_on_blank : flag) :
  (doesNotContainValue needle haystack error_on_blank = true
   <-> (needle = EmptyString /\ error_on_blank <> Bool true)
       \/ ~ occurs needle haystack)
  /\ doesNotContainValue EmptyString haystack (Bool true) = false.
Proof.
  assert (occurs EmptyString haystack) as Hempty by (by exists EmptyString, haystack).
  assert (forall n, (indexOf haystack n =? -1) = true <-> ~ occurs n haystack)
    as Hindex.
  { intros n. unfold indexOf, occurs.
    rewrite <- (indexOf_from_found n haystack 0) by lia.
    rewrite Z.eqb_eq. split; [intros Heq Hne; by apply Hne | ]. intros H.
    destruct (Z.eq_dec (indexOf_from n haystack 0) (-1)); [done|].
    by destruct H. }
  split.
  - unfold doesNotContainValue.
    destruct (str_length needle =? 0) eqn:Hlen.
    + apply str_length_zero in Hlen as ->.
      destruct error_on_blank as [|[]]; simpl.
      * split; [intros _; by left | done].
      * destruct (indexOf haystack EmptyString =? -1) eqn:Hi.
        -- by apply Hindex in Hi.
        -- split; [done|]. intros [[_ ?]|?]; done.
      * split; [intros _; by left | done].
    + simpl. assert (needle <> EmptyString) as Hne.
      { intros ->. by rewrite (proj2 (str_length_zero EmptyString)) in Hlen. }
      destruct (indexOf haystack needle =? -1) eqn:Hi.
      * split; [|done]. intros _. right. by apply Hindex.
      * split; [done|]. intros [[? _]|Hocc]; [done|].
        apply Hindex in Hocc. congruence.
  - unfold doesNotContainValue. simpl.
    destruct (indexOf haystack EmptyString =? -1) eqn:Hi; [|done].
    by apply Hindex in Hi.
Qed.

(** X4: [doesNotContainValue] for every flag: it passes when the needle does
    not stand in the haystack, and on an empty needle exactly when
    [error_on_blank] is not [true]. With [error_on_blank = true] an empty
    needle fails whatever the haystack is. *)
Theorem doesNotContainValue_occurs (needle haystack : string)
        (error_on_blank : flag) :
  (doesNotContainValue needle haystack error_on_blank = true
   <-> (needle = EmptyString /\ error_on_blank <> Bool true)
       \/ ~ occurs needle haystack)
  /\ doesNotContainValue EmptyString haystack (Bool true) = false.
Proof. apply doesNotContainValue_spec. Qed.

Lemma test_anchored r s : test (mkRegexp true r true) s = true <-> lang r s.
Proof.
  unfold test. simpl. rewrite matches_spec. split.
  - intros (s1 & s2 & -> & ->%lang_eps_inv & H)%lang_cat_inv.
    apply lang_cat_inv in H as (s3 & s4 & -> & H & ->%lang_eps_inv).
    by rewrite append_nil_l, append_nil_r.
  - intros H. rewrite <- (append_nil_l s), <- (append_nil_r s).
    rewrite append_nil_l. apply (lang_cat Eps _ EmptyString); [constructor|].
    apply lang_cat; [done | constructor].
Qed.

Lemma lang_rep_class p (n : nat) s : lang (rep n (Class p)) s <-> run_of p n s.
Proof.
  unfold run_of, chars. revert s. induction n as [|n IH]; intros s; simpl.
  - split; [by intros ->%lang_eps_inv|]. intros [Hlen _].
    destruct s; [constructor | done].
  - split.
    + intros (s1 & s2 & -> & (c & -> & Hc)%lang_class_inv & H)%lang_cat_inv.
      apply IH in H as [Hlen Hall]. rewrite append_cons, append_nil_l. simpl.
      by rewrite Hlen, Hc, Hall.
    + intros [Hlen Hall]. destruct s as [|c s]; [done|]. simpl in *.
      apply andb_true_iff in Hall as [Hc Hall].
      apply (lang_cat _ _ (String c EmptyString) s); [by constructor|].
      apply IH. split; [lia | done].
Qed.

Lemma lang_opt_dash s : lang (opt (chr "-")) s <-> dash_or_nothing s.
Proof.
  unfold opt, chr, dash_or_nothing. split.
  - intros [->%lang_eps_inv|(c & -> & Hc)%lang_class_inv]%lang_alt_inv;
      [by left|]. right. by apply Ascii.eqb_eq in Hc as <-.
  - intros [->| ->]; [apply lang_alt_l; constructor|].
    apply lang_alt_r. by constructor.
Qed.

(** The pattern of three runs of digits with optional dashes. *)
Lemma lang_dashed (n1 n2 n3 : nat) s :
  lang (Cat (rep n1 (Class digit))
          (Cat (opt (chr "-"))
             (Cat (rep n2 (Class digit))
                (Cat (opt (chr "-")) (rep n3 (Class digit)))))) s
  <-> dashed_digits n1 n2 n3 s.
Proof.
  unfold dashed_digits. split.
  - intros (a & s1 & -> & Ha & H)%lang_cat_inv.
    apply lang_cat_inv in H as (d1 & s2 & -> & Hd1 & H).
    apply lang_cat_inv in H as (b & s3 & -> & Hb & H).
    apply lang_cat_inv in H as (d2 & c & -> & Hd2 & Hc).
    exists a, d1, b, d2, c.
    by rewrite <- !lang_rep_class, <- !lang_opt_dash.
  - intros (a & d1 & b & d2 & c & -> & Ha & Hd1 & Hb & Hd2 & Hc).
    repeat apply lang_cat;
      by first [apply lang_rep_class | apply lang_opt_dash].
Qed.

Lemma dashed_digits_length (n1 n2 n3 : nat) s :
  dashed_digits n1 n2 n3 s ->
  (n1 + n2 + n3 <= String.length s <= n1 + n2 + n3 + 2)%nat.
Proof.
  intros (a & d1 & b & d2 & c & -> & [Ha _] & Hd1 & [Hb _] & Hd2 & [Hc _]).
  rewrite !length_append, Ha, Hb, Hc.
  destruct Hd1 as [->| ->], Hd2 as [->| ->]; simpl; lia.
Qed.

(** X5: [ssnValid] passes an empty value when [error_on_blank] is [false],
    and otherwise exactly the values made of 3, 2 and 4 digits with a
    dash or nothing between the runs. *)
Theorem ssnValid_format v (error_on_blank : flag) :
  ssnValid v error_on_blank = true
  <-> (v = EmptyString /\ error_on_blank = Bool false)
      \/ dashed_digits 3 2 4 v.
Proof.
  unfold ssnValid.
  assert (test socialRegex v = true <-> dashed_digits 3 2 4 v) as Htest.
  { unfold socialRegex. by rewrite test_anchored, lang_dashed. }
  assert (loose_false error_on_blank = true <-> error_on_blank = Bool false)
    as Hflag.
  { destruct error_on_blank as [|[]]; simpl; split; congruence. }
  destruct (str_length v =? 0) eqn:Hblank; simpl.
  - apply str_length_zero in Hblank as ->.
    destruct (loose_false error_on_blank); simpl.
    + split; [|done]. intros _. left. split; [done | by apply Hflag].
    + split; [done|]. intros [[_ Hf]|Hd].
      * by apply Hflag in Hf.
      * apply dashed_digits_length in Hd. simpl in Hd. lia.
  - assert (v <> EmptyString) as Hne.
    { intros ->. by rewrite (proj2 (str_length_zero EmptyString)) in Hblank. }
    destruct (test socialRegex v) eqn:Ht; simpl.
    + pose proof (proj1 Htest eq_refl) as Hd.
      pose proof (dashed_digits_length _ _ _ _ Hd) as Hlen.
      destruct (Z.ltb_spec (str_length v) 9) as [Hlt|Hge]; simpl.
      * unfold str_length in Hlt. simpl in Hlen. lia.
      * split; [by right | done].
    + rewrite orb_true_r. split; [done|].
      intros [[? _]|Hd]; [done|]. apply Htest in Hd. congruence.
Qed.

(** A digit is no dash and has no meaning of its own in a pattern. *)
Lemma digit_plain c :
  digit c = true ->
  Ascii.eqb c "." = false /\ Ascii.eqb c "\" = false
  /\ one_of "*+?()[|^$" c = false /\ Ascii.eqb c "-" = false.
Proof.
  destruct c as [[] [] [] [] [] [] [] []]; vm_compute; intros H;
    first [discriminate H | repeat split].
Qed.

(** A character that breaks the pattern is neither the dot nor the
    backslash. *)
Lemma breaking_plain c :
  one_of "*+?()[|^$" c = true ->
  Ascii.eqb c "." = false /\ Ascii.eqb c "\" = false.
Proof.
  destruct c as [[] [] [] [] [] [] [] []]; vm_compute; intros H;
    first [discriminate H | repeat split].
Qed.

Lemma remove_dashes_append s1 s2 :
  remove_dashes (s1 ++ s2) = (remove_dashes s1 ++ remove_dashes s2)%string.
Proof.
  induction s1 as [|a s1 IH]; [done|]. rewrite append_cons. simpl.
  destruct (Ascii.eqb a "-"); [done|]. by rewrite append_cons, IH.
Qed.

Lemma remove_dashes_digits s :
  forallb digit (chars s) = true -> remove_dashes s = s.
Proof.
  unfold chars. induction s as [|a s IH]; simpl; [done|].
  intros [Ha Hs]%andb_true_iff.
  destruct (digit_plain a Ha) as (_ & _ & _ & ->). by rewrite IH.
Qed.

Lemma remove_dashes_dash s : dash_or_nothing s -> remove_dashes s = EmptyString.
Proof. by intros [->| ->]. Qed.

Lemma run_of_append p (n m : nat) s1 s2 :
  run_of p n s1 -> run_of p m s2 -> run_of p (n + m) (s1 ++ s2).
Proof.
  unfold run_of. intros [Hn H1] [Hm H2]. rewrite length_append, chars_append.
  split; [lia|]. rewrite forallb_app. by rewrite H1, H2.
Qed.

(** Without its dashes a dashed number is the digits alone. *)
Lemma dashed_digits_stripped (n1 n2 n3 : nat) v :
  dashed_digits n1 n2 n3 v -> run_of digit (n1 + (n2 + n3)) (remove_dashes v).
Proof.
  intros (a & d1 & b & d2 & c & -> & Ha & Hd1 & Hb & Hd2 & Hc).
  rewrite !remove_dashes_append, (remove_dashes_dash d1), (remove_dashes_dash d2)
    by done.
  rewrite !append_nil_l.
  rewrite !remove_dashes_digits by (by destruct Ha, Hb, Hc).
  by repeat apply run_of_append.
Qed.

Lemma dashed_digits_first (n1 n2 n3 : nat) v :
  dashed_digits (S n1) n2 n3 v ->
  exists c rest, v = String c rest /\ digit c = true.
Proof.
  intros (a & d1 & b & d2 & c & -> & [Hlen Ha] & _).
  destruct a as [|x a]; [done|]. unfold chars in Ha. simpl in Ha.
  apply andb_true_iff in Ha as [Hx _]. rewrite append_cons. by eexists _, _.
Qed.

(** The words of [c+]: not empty, and every character is [c]. *)
Lemma lang_plus_chr c s :
  lang (plus (chr c)) s
  <-> s <> EmptyString /\ forallb (Ascii.eqb c) (chars s) = true.
Proof.
  unfold plus, chr. split.
  - intros (s1 & s2 & -> & (x & -> & Hx)%lang_class_inv & H)%lang_cat_inv.
    apply lang_star_class in H. rewrite append_cons, append_nil_l.
    split; [done|]. unfold chars in *. simpl. by rewrite Hx, H.
  - intros [Hne Hall]. destruct s as [|x s]; [done|].
    unfold chars in Hall. simpl in Hall.
    apply andb_true_iff in Hall as [Hx Hall].
    apply (lang_cat _ _ (String x EmptyString) s); [by constructor|].
    by apply lang_star_class.
Qed.

Lemma forallb_eqb_false c (l : list ascii) :
  forallb (Ascii.eqb c) l = false <-> exists d, In d l /\ d <> c.
Proof.
  induction l as [|x l IH]; simpl.
  - split; [done | by intros (d & [] & _)].
  - destruct (Ascii.eqb_spec c x) as [<-|Hne]; simpl.
    + rewrite IH. split.
      * intros (d & Hin & Hd). exists d. by split; [right|].
      * intros (d & [<-|Hin] & Hd); [done|]. by exists d.
    + split; [|done]. intros _. exists x. split; [by left | congruence].
Qed.

Lemma sameCharRegExp_digit c :
  digit c = true ->
  sameCharRegExp (Some c) = Returned (mkRegexp true (plus (chr c)) true).
Proof.
  intros (Hdot & Hback & Hbreak & _)%digit_plain.
  unfold sameCharRegExp. by rewrite Hdot, Hback, Hbreak.
Qed.

Lemma str_length_cons c s : (str_length (String c s) =? 0) = false.
Proof. unfold str_length. apply Z.eqb_neq. simpl. lia. Qed.

(** X6: [phoneValid] passes an empty value when [error_on_blank] is [false],
    and otherwise exactly the values made of 3, 3 and 4 digits, with a
    dash or nothing between the runs, in which some digit differs from
    the first. *)
Theorem phoneValid_format v (error_on_blank : flag) :
  phoneValid v error_on_blank = Returned true
  <-> (v = EmptyString /\ error_on_blank = Bool false)
      \/ (dashed_digits 3 3 4 v
          /\ exists c rest d, v = String c rest
                              /\ In d (chars (remove_dashes v)) /\ d <> c).
Proof.
  assert (phone_ruleOne v = true <-> dashed_digits 3 3 4 v) as Hformat.
  { unfold phone_ruleOne, numericRegex. by rewrite test_anchored, lang_dashed. }
  destruct v as [|c rest].
  - destruct error_on_blank as [|[]]; vm_compute; split; try done.
    + intros [[_ ?]|[Hd _]]; [done|].
      apply dashed_digits_length in Hd. simpl in Hd. lia.
    + intros [[_ ?]|[Hd _]]; [done|].
      apply dashed_digits_length in Hd. simpl in Hd. lia.
    + intros _. by left.
  - unfold phoneValid. rewrite str_length_cons. simpl.
    destruct (phone_ruleOne (String c rest)) eqn:Hone.
    + pose proof (proj1 Hformat eq_refl) as Hd.
      destruct (dashed_digits_first _ _ _ _ Hd) as (c' & rest' & [= <- <-] & Hc).
      pose proof (dashed_digits_stripped _ _ _ _ Hd) as [Hlen Hdigits].
      unfold phone_ruleThere, phone_ruleTwo. simpl String.get.
      rewrite (sameCharRegExp_digit c Hc). unfold replace_whole.
      set (t := remove_dashes (String c rest)) in *.
      assert (str_length t = 10) as Hten by (unfold str_length; lia).
      rewrite Hten. simpl (10 =? 10).
      destruct (test (mkRegexp true (plus (chr c)) true) t) eqn:Hsame.
      * split; [done|]. intros [[? _]|[_ (c' & rest' & d & [= <- <-] & Hin & Hne)]];
          [done|].
        apply test_anchored, lang_plus_chr in Hsame as [_ Hall].
        rewrite forallb_forall in Hall. apply Hall in Hin.
        by apply Ascii.eqb_eq in Hin.
      * rewrite Hten. simpl. split; [|done]. intros _. right. split; [done|].
        assert (forallb (Ascii.eqb c) (chars t) = false) as Hall.
        { apply not_true_is_false. intros Hall.
          assert (test (mkRegexp true (plus (chr c)) true) t = true) as Habs.
          { apply test_anchored, lang_plus_chr. split; [|done].
            intros Ht. rewrite Ht in Hlen. done. }
          congruence. }
        apply forallb_eqb_false in Hall as (d & Hin & Hne).
        by exists c, rest, d.
    + split.
      * by destruct (phone_ruleThere (String c rest)).
      * intros [[? _]|[Hd _]]; [done|]. apply Hformat in Hd. congruence.
Qed.

(** X7: [phoneValid] throws exactly on the values whose first character is
    one of [* + ? ( ) [ | ^ $]: the pattern built from that character does
    not parse. [validatePhoneField] and [handlePhoneField] then end
    there, and no error is set on the field. *)
Theorem phoneValid_throws v (error_on_blank : flag) :
  (phoneValid v error_on_blank = Thrown
   <-> exists c rest, v = String c rest /\ one_of "*+?()[|^$" c = true)
  /\ forall (q : page) (field : domElement) (error_message : string)
            (required : flag),
      value_of q field = v ->
      phoneValid v error_on_blank = Thrown ->
      validatePhoneField field error_message error_on_blank q = (Thrown, q)
      /\ handlePhoneField field error_on_blank required q = (Thrown, q).
Proof.
  split.
  - destruct v as [|c rest].
    + split; [|by intros (c & rest & ? & _)].
      by destruct error_on_blank as [|[]]; vm_compute.
    + unfold phoneValid, phone_ruleThere, sameCharRegExp.
      rewrite str_length_cons. simpl.
      destruct (one_of "*+?()[|^$" c) eqn:Hbreak.
      * destruct (breaking_plain c Hbreak) as [-> ->].
        split; [|done]. intros _. by exists c, rest.
      * split; [|by intros (c' & rest' & [= <- <-] & ?); congruence].
        by destruct (Ascii.eqb c "."), (Ascii.eqb c "\").
  - intros q field error_message required Hvalue Hthrown.
    unfold handlePhoneField, validatePhoneField, val. run_page.
    by rewrite Hvalue, Hthrown.
Qed.

Lemma phoneValid_throws_witness :
  validatePhoneField field_a "Incorrect Format" (Bool false)
    (sample_page {[10%nat := "(555) 123-4567"%string]} ∅ ∅)
  = (Thrown, sample_page {[10%nat := "(555) 123-4567"%string]} ∅ ∅)
  /\ handlePhoneField field_a (Bool false) Undefined
       (sample_page {[10%nat := "(555) 123-4567"%string]} ∅ ∅)
     = (Thrown, sample_page {[10%nat := "(555) 123-4567"%string]} ∅ ∅).
Proof.
  apply (proj2 (phoneValid_throws "(555) 123-4567" (Bool false))
           (sample_page {[10%nat := "(555) 123-4567"%string]} ∅ ∅) field_a
           "Incorrect Format"%string Undefined); reflexivity.
Defined.

End Formats.

(** ** Mail addresses, repeated characters and the numeric auto-format *)

Section MoreFormats.

Implicit Types (r : re) (s v : string) (c : ascii) (p : ascii -> bool).

Lemma lang_plus_class p s :
  lang (plus (Class p)) s
  <-> s <> EmptyString /\ forallb p (chars s) = true.
Proof.
  unfold plus. split.
  - intros (s1 & s2 & -> & (x & -> & Hx)%lang_class_inv & H)%lang_cat_inv.
    apply lang_star_class in H. rewrite append_cons, append_nil_l.
    split; [done|]. unfold chars in *. simpl. by rewrite Hx, H.
  - intros [Hne Hall]. destruct s as [|x s]; [done|].
    unfold chars in Hall. simpl in Hall.
    apply andb_true_iff in Hall as [Hx Hall].
    apply (lang_cat _ _ (String x EmptyString) s); [by constructor|].
    by apply lang_star_class.
Qed.

Lemma lang_upto_class (n : nat) p s :
  lang (upto n (Class p)) s -> forallb p (chars s) = true.
Proof.
  revert s. induction n as [|n IH]; intros s; simpl.
  - by intros ->%lang_eps_inv.
  - intros [->%lang_eps_inv|H]%lang_alt_inv; [done|].
    apply lang_cat_inv in H as (s1 & s2 & -> & (x & -> & Hx)%lang_class_inv & H).
    rewrite append_cons, append_nil_l. unfold chars. simpl.
    rewrite Hx. by apply IH.
Qed.

Lemma forallb_weaken {A : Type} (f g : A -> bool) (l : list A) :
  (forall a, f a = true -> g a = true) ->
  forallb f l = true -> forallb g l = true.
Proof.
  intros Hfg. rewrite !forallb_forall. auto.
Qed.

(** A label of the domain starts with a letter or a digit and is made of
    letters, digits and dashes. *)
Lemma lang_email_label s :
  lang email_label s ->
  exists x d, s = String x d /\ alnum x = true
              /\ forallb email_domain_char (chars d) = true.
Proof.
  unfold email_label.
  intros (s1 & s2 & -> & (x & -> & Hx)%lang_class_inv & H)%lang_cat_inv.
  rewrite append_cons, append_nil_l. exists x, s2. split; [done|].
  split; [done|].
  apply lang_alt_inv in H as [->%lang_eps_inv|H]; [done|].
  apply lang_cat_inv in H as (u & z & -> & Hu%lang_upto_class & Hz).
  apply lang_class_inv in Hz as (y & -> & Hy).
  rewrite chars_append, forallb_app. apply andb_true_iff. split.
  - eapply forallb_weaken; [|exact Hu].
    intros a Ha. unfold email_domain_char. simpl in Ha. by rewrite Ha.
  - unfold chars, email_domain_char. simpl. by rewrite Hy.
Qed.

(** The labels after the first one, each behind a dot. *)
Lemma lang_email_labels s :
  lang (Star (Cat (chr ".") email_label)) s ->
  forallb email_domain_char (chars s) = true.
Proof.
  intros H. remember (Star (Cat (chr ".") email_label)) as r eqn:Hr.
  induction H as [| | | | | |r0 s1 s2 H1 _ H2 IH2]; try done.
  injection Hr as ->.
  apply lang_cat_inv in H1 as (d & l & -> & (x & -> & Hx)%lang_class_inv & Hl).
  apply lang_email_label in Hl as (y & t & -> & Hy & Ht).
  apply Ascii.eqb_eq in Hx as <-.
  rewrite append_cons, append_nil_l, !append_cons.
  assert (forall c s, chars (String c s) = c :: chars s) as Hcons by done.
  rewrite !Hcons, chars_append. simpl. rewrite forallb_app, Ht, IH2 by done.
  unfold email_domain_char. by rewrite Hy.
Qed.

(** X8: [emailValid], where it passes a value that is not empty: a local part
    of the allowed characters stands before an [@], and what follows the
    [@] starts with a letter or a digit and is made of letters, digits,
    dashes and dots. The pattern is not anchored at its start: whatever is
    put before a value that passes, the result passes too. *)
Theorem emailValid_shape v (error_on_blank : flag) :
  (emailValid v error_on_blank = true ->
   (v = EmptyString /\ error_on_blank = Bool false)
   \/ exists pre l x d,
        v = (pre ++ l ++ "@" ++ String x d)%string
        /\ l <> EmptyString /\ forallb email_local (chars l) = true
        /\ alnum x = true /\ forallb email_domain_char (chars d) = true)
  /\ (forall pre, v <> EmptyString -> emailValid v error_on_blank = true ->
                   emailValid (pre ++ v) error_on_blank = true).
Proof.
  assert (forall w, w <> EmptyString ->
                    emailValid w error_on_blank = test emailRegex w) as Htest.
  { intros [|c w] Hw; [done|]. unfold emailValid.
    by rewrite str_length_cons. }
  split.
  - destruct v as [|c0 v0].
    { intros Hv. left. split; [done|].
      by destruct error_on_blank as [|[]]. }
    rewrite Htest by done. set (v := String c0 v0). clearbody v.
    unfold test, emailRegex. simpl. rewrite matches_spec.
    intros (pre & s1 & -> & _ & H)%lang_cat_inv. right.
    apply lang_cat_inv in H as (w & e & -> & H & ->%lang_eps_inv).
    apply lang_cat_inv in H as (l & s2 & -> & [Hl Hlocal]%lang_plus_class & H).
    apply lang_cat_inv in H as (a & s3 & -> & (y & -> & Hy)%lang_class_inv & H).
    apply Ascii.eqb_eq in Hy as <-.
    apply lang_cat_inv in H as (lab & st & -> & Hlab & Hst%lang_email_labels).
    apply lang_email_label in Hlab as (x & d & -> & Hx & Hd).
    exists pre, l, x, (d ++ st)%string. rewrite append_nil_r.
    split; [by rewrite append_cons|].
    do 3 (split; [done|]). rewrite chars_append, forallb_app.
    by rewrite Hd, Hst.
  - intros pre Hv. rewrite Htest by done.
    assert ((pre ++ v)%string <> EmptyString) as Hpre.
    { intros [_ ?]%append_eq_nil. done. }
    rewrite Htest by done. unfold test, emailRegex. simpl.
    rewrite !matches_spec.
    intros (s1 & s2 & -> & _ & H)%lang_cat_inv.
    rewrite <- append_assoc. apply lang_cat; [apply lang_any | done].
Qed.

Lemma emailValid_shape_witness :
  emailValid "x y a@b.co" (Bool true) = true.
Proof.
  apply (proj2 (emailValid_shape "a@b.co" (Bool true)) "x y "%string);
    [discriminate | reflexivity].
Defined.

Lemma moreThanTwoReps_unfold (a b c : ascii) s :
  moreThanTwoReps (String a (String b (String c s)))
  = (dot a && Ascii.eqb a b && Ascii.eqb a c)
    || moreThanTwoReps (String b (String c s)).
Proof. reflexivity. Qed.

Lemma moreThanTwoReps_triple v :
  moreThanTwoReps v = true
  <-> exists pre c post,
      v = (pre ++ String c (String c (String c post)))%string /\ dot c = true.
Proof.
  induction v as [|a v IH].
  - split; [done|]. intros (pre & c & post & Hv & _). by destruct pre.
  - destruct v as [|b [|c0 v]].
    + split; [done|]. intros (pre & c & post & Hv & _).
      by destruct pre as [|? [|? ?]].
    + split; [done|]. intros (pre & c & post & Hv & _).
      by destruct pre as [|? [|? [|? ?]]].
    + rewrite moreThanTwoReps_unfold, orb_true_iff, IH, !andb_true_iff. split.
      * intros [[[Hdot <-%Ascii.eqb_eq] <-%Ascii.eqb_eq]|(pre & c & post & Hv & Hc)].
        -- by exists EmptyString, a, v.
        -- exists (String a pre), c, post. by rewrite append_cons, Hv.
      * intros (pre & c & post & Hv & Hc). destruct pre as [|x pre].
        -- rewrite append_nil_l in Hv. injection Hv as -> -> -> ->. left.
           by rewrite !Ascii.eqb_refl.
        -- rewrite append_cons in Hv. injection Hv as -> Hv. right.
           by exists pre, c, post.
Qed.

(** X9: [doesNotContainDoubleCharacters] fails exactly on the values in which
    a character, not a line terminator, stands three times in a row; a
    character that stands twice in a row passes. *)
Theorem doesNotContainDoubleCharacters_triple v :
  (doesNotContainDoubleCharacters v = false
   <-> exists pre c post,
       v = (pre ++ String c (String c (String c post)))%string
       /\ dot c = true)
  /\ forall c, doesNotContainDoubleCharacters (String c (String c EmptyString))
               = true.
Proof.
  unfold doesNotContainDoubleCharacters. split; [|done].
  rewrite negb_false_iff. apply moreThanTwoReps_triple.
Qed.

Lemma remove_non_digits_digits s :
  forallb digit (chars (remove_non_digits s)) = true.
Proof.
  unfold chars. induction s as [|a s IH]; simpl; [done|].
  destruct (digit a) eqn:Ha; simpl; [by rewrite Ha | done].
Qed.

Lemma remove_non_digits_id s :
  forallb digit (chars s) = true -> remove_non_digits s = s.
Proof.
  unfold chars. induction s as [|a s IH]; simpl; [done|].
  intros [-> Hs]%andb_true_iff. simpl. by rewrite IH.
Qed.

(** X10: [NumericOnlyAutoFormatBehavior] leaves only digits in the field, so
    the numeric rule passes on it afterwards; a value of digits stays as
    it is; the other fields, the classes, the messages and the commands
    are not touched; and running it again changes nothing. *)
Theorem NumericOnlyAutoFormatBehavior_digits (element : domElement)
        (q : page) :
  let q' := snd (NumericOnlyAutoFormatBehavior element q) in
  containsOnlyNumeric (value_of q' element) = true
  /\ (containsOnlyNumeric (value_of q element) = true ->
      value_of q' element = value_of q element)
  /\ (forall other, node other <> node element ->
                    value_of q' other = value_of q other)
  /\ shown q' = shown q /\ commands q' = commands q
  /\ snd (NumericOnlyAutoFormatBehavior element q') = q'.
Proof.
  unfold NumericOnlyAutoFormatBehavior, val. run_page.
  assert (forall m x, value_of (with_values (insert (node element) x) m) element = x)
    as Hread.
  { intros m x. unfold value_of. simpl. by rewrite lookup_insert_eq. }
  rewrite !Hread. split; [|split; [|split; [|split; [|split]]]]; try done.
  - rewrite containsOnlyNumeric_forallb. apply remove_non_digits_digits.
  - rewrite containsOnlyNumeric_forallb. apply remove_non_digits_id.
  - intros other Hother. unfold value_of. simpl.
    by rewrite lookup_insert_ne.
  - rewrite remove_non_digits_id by apply remove_non_digits_digits.
    unfold with_values. simpl. by rewrite insert_insert_eq.
Qed.

Lemma NumericOnlyAutoFormatBehavior_digits_witness :
  value_of (snd (NumericOnlyAutoFormatBehavior field_a
                   (sample_page {[10%nat := "12345"%string]} ∅ ∅))) field_a
  = value_of (sample_page {[10%nat := "12345"%string]} ∅ ∅) field_a.
Proof.
  apply (proj1 (proj2 (NumericOnlyAutoFormatBehavior_digits field_a
                         (sample_page {[10%nat := "12345"%string]} ∅ ∅)))).
  reflexivity.
Defined.

End MoreFormats.

(** ** The rule evaluator in every mode *)

Section EvaluatorModes.

Implicit Types (R : list bool).

Lemma runValidationRuleset_spec R (return_errors halt_on_error : flag) :
  runValidationRuleset R return_errors halt_on_error
  = if strict_true halt_on_error && negb (forallb id R) then Verdict false
    else if strict_true return_errors then Results R
         else Verdict (forallb id R).
Proof.
  unfold runValidationRuleset.
  destruct (strict_true halt_on_error) eqn:Hhalt; simpl.
  - destruct halt_on_error as [|[]]; try done. clear Hhalt.
    assert (forall acc errors,
      ruleset_loop return_errors (Bool true) R acc errors
      = if forallb id R then Finished (acc ++ R) errors else Halted) as Hloop.
    { induction R as [|b R IH]; intros acc errors; simpl.
      - by rewrite app_nil_r.
      - destruct b; simpl; [|done]. rewrite andb_false_r, IH.
        by rewrite <- app_assoc. }
    rewrite Hloop. destruct (forallb id R); simpl; [|done].
    by destruct (strict_true return_errors).
  - rewrite ruleset_loop_no_halt by done. simpl.
    destruct (strict_true return_errors); simpl; [done|].
    by rewrite negb_involutive.
Qed.

Lemma runValidationRuleset_verdict R (return_errors halt_on_error : flag) :
  return_errors <> Bool true ->
  runValidationRuleset R return_errors halt_on_error = Verdict (forallb id R).
Proof.
  intros Hre. rewrite runValidationRuleset_spec.
  assert (strict_true return_errors = false) as ->
    by (by destruct return_errors as [|[]]).
  destruct (strict_true halt_on_error), (forallb id R); done.
Qed.

(** X11: [runValidationRuleset] for every value of its two flags. With both
    set, a failing array gives the boolean [false], not the array of the
    results; a passing array gives the array. Without [return_errors] the
    boolean is the conjunction of the results whatever [halt_on_error]
    is, flags left out included. *)
Theorem runValidationRuleset_modes R (return_errors halt_on_error : flag) :
  (runValidationRuleset R (Bool true) (Bool true)
   = if forallb id R then Results R else Verdict false)
  /\ (return_errors <> Bool true ->
      runValidationRuleset R return_errors halt_on_error
      = Verdict (forallb id R)).
Proof.
  split.
  - rewrite runValidationRuleset_spec. simpl. by destruct (forallb id R).
  - apply runValidationRuleset_verdict.
Qed.

Lemma runValidationRuleset_modes_witness :
  runValidationRuleset [true; false] Undefined Undefined = Verdict false.
Proof.
  apply (proj2 (runValidationRuleset_modes [true; false] Undefined Undefined)).
  discriminate.
Defined.

Lemma forallb_id_Permutation R R' :
  Permutation R R' -> forallb id R = forallb id R'.
Proof.
  induction 1 as [|b R R' _ IH|a b R|R R' R'' _ IH1 _ IH2]; simpl.
  - done.
  - by rewrite IH.
  - by destruct a, b.
  - by rewrite IH1.
Qed.

(** X12: The boolean result does not depend on the order of the rules: two
    arrays with the same results in another order give the same boolean,
    with or without [halt_on_error]. *)
Theorem runValidationRuleset_order R R' (return_errors halt_on_error : flag) :
  Permutation R R' ->
  return_errors <> Bool true ->
  runValidationRuleset R return_errors halt_on_error
  = runValidationRuleset R' return_errors halt_on_error.
Proof.
  intros Hperm Hre.
  rewrite !runValidationRuleset_verdict by done.
  by rewrite (forallb_id_Permutation R R').
Qed.

Lemma runValidationRuleset_order_witness :
  runValidationRuleset [true; false] Undefined (Bool true)
  = runValidationRuleset [false; true] Undefined (Bool true).
Proof.
  apply (runValidationRuleset_order [true; false] [false; true] Undefined
           (Bool true)).
  - apply perm_swap.
  - discriminate.
Defined.

End EvaluatorModes.

(** ** What the error state functions show *)

#[local] Set Warnings "-clear-no-such-hyp".

Section ShownState.

Implicit Types (p : page) (element field : domElement) (message : string).

Lemma setErrorState_shown element message p :
  let p' := snd (setErrorState element message p) in
  form_error_state p' =
    (match closest_form element with
     | Some my_form => {[my_form]} ∪ form_error_state p
     | None => form_error_state p
     end)
  /\ label_error p' =
     (if existsb (fun l => bool_decide (l ∈ label_error p)) (label_items element)
      then label_error p
      else list_to_set (label_items element) ∪ label_error p)
  /\ messages p' =
     (match form_item element with
      | None => messages p
      | Some item =>
          <[item := match default [] (messages p !! item) with
                    | [] => [message]
                    | found => List.map (fun _ => message) found
                    end]> (messages p)
      end).
Proof.
  unfold setErrorState. run_page.
  destruct (existsb _ (label_items element)); simpl;
    destruct (closest_form element); simpl;
    unfold set_messages; simpl;
    destruct (form_item element) as [item|]; simpl; try done;
    by destruct (default [] (messages p !! item)).
Qed.

Lemma recoverErrorState_shown element p :
  let p' := snd (recoverErrorState element p) in
  label_error p' = label_error p ∖ list_to_set (label_items element)
  /\ messages p' =
     (match form_item element with
      | None => messages p
      | Some item =>
          match messages p !! item with
          | None => messages p
          | Some found =>
              <[item := List.map (fun _ => EmptyString) found]> (messages p)
          end
      end).
Proof.
  unfold recoverErrorState. run_page. rewrite otherErrorsExist_run.
  destruct (other_errors _ element); simpl;
    destruct (closest_form element); simpl;
    unfold clear_messages; simpl;
    destruct (form_item element) as [item|]; simpl; try done;
    by destruct (messages p !! item).
Qed.




(** X15: [recoverErrorState] takes the field out of error and empties its
    message boxes without removing them. It sets no class, and leaves the
    other fields, the forms other than the form of the field, the values
    and the tree as they were. *)
Theorem recoverErrorState_effect element p :
  let p' := snd (recoverErrorState element p) in
  (node element ∉ error_class p')
  /\ (forall n, n <> node element -> n ∈ error_class p' <-> n ∈ error_class p)
  /\ form_error_state p' ⊆ form_error_state p
  /\ label_error p' ⊆ label_error p
  /\ (forall S, closest_form element <> Some S ->
                S ∈ form_error_state p' <-> S ∈ form_error_state p)
  /\ (forall item boxes, form_item element = Some item ->
                         messages p !! item = Some boxes ->
                         messages p' !! item
                         = Some (List.map (fun _ => EmptyString) boxes))
  /\ values p' = values p /\ document p' = document p.
Proof.
  pose proof (recoverErrorState_page element p) as (Hdoc & Hval & Herr & _ & Hform).
  pose proof (recoverErrorState_shown element p) as (Hlabel & Hmsg).
  cbv zeta in *. set (p' := snd (recoverErrorState element p)) in *.
  clearbody p'.
  split; [rewrite Herr; set_solver|].
  split; [intros n Hn; rewrite Herr; set_solver|].
  split.
  { rewrite Hform. destruct (other_errors p' element); [done|].
    destruct (closest_form element); set_solver. }
  split; [rewrite Hlabel; set_solver|].
  split.
  { intros S HS. rewrite Hform. destruct (other_errors p' element); [done|].
    destruct (closest_form element) as [my_form|]; [|done].
    assert (S <> my_form) by congruence. set_solver. }
  split; [|done].
  intros item boxes Hitem Hboxes. rewrite Hmsg, Hitem, Hboxes.
  apply lookup_insert_eq.
Qed.

(** X16: Recovering a field again changes nothing of what the page shows. *)
Theorem recoverErrorState_twice element p :
  let p' := snd (recoverErrorState element p) in
  shown (snd (recoverErrorState element p')) = shown p'.
Proof.
  intros p'.
  pose proof (recoverErrorState_page element p) as (Hdoc & _ & Herr & _ & Hform).
  pose proof (recoverErrorState_shown element p) as (Hlabel & Hmsg).
  pose proof (recoverErrorState_page element p')
    as (Hdoc' & _ & Herr' & _ & Hform').
  pose proof (recoverErrorState_shown element p') as (Hlabel' & Hmsg').
  cbv zeta in *.
  change (snd (recoverErrorState element p)) with p'
    in Hdoc, Herr, Hform, Hlabel, Hmsg.
  set (p'' := snd (recoverErrorState element p')) in *.
  clearbody p' p''. unfold shown.
  assert (error_class p'' = error_class p') as Herr''.
  { rewrite Herr', Herr. apply difference_twice_L. }
  assert (other_errors p'' element = other_errors p' element) as Hothers.
  { apply other_errors_ext; [congruence | done]. }
  rewrite Herr'', Hform', Hlabel', Hmsg', Hothers.
  assert ((if other_errors p' element then form_error_state p'
           else match closest_form element with
                | Some my_form => form_error_state p' ∖ {[my_form]}
                | None => form_error_state p'
                end) = form_error_state p') as ->.
  { destruct (other_errors p' element) eqn:Ho; [done|].
    destruct (closest_form element) as [my_form|]; [|done].
    rewrite Hform. apply difference_twice_L. }
  assert (label_error p' ∖ list_to_set (label_items element) = label_error p')
    as ->.
  { rewrite Hlabel. apply difference_twice_L. }
  assert (match form_item element with
          | Some item =>
              match messages p' !! item with
              | Some found =>
                  <[item := List.map (fun _ => EmptyString) found]> (messages p')
              | None => messages p'
              end
          | None => messages p'
          end = messages p') as ->; [|done].
  destruct (form_item element) as [item|]; [|done]. rewrite Hmsg.
  destruct (messages p !! item) as [found|] eqn:Hfound.
  - rewrite lookup_insert_eq, insert_insert_eq. by rewrite List.map_map.
  - by rewrite Hfound.
Qed.

(** X17: Every input in error stands in a form marked [form-error-state]: this
    holds on a page without errors, and [setErrorState] and
    [recoverErrorState] keep it. *)
Theorem forms_flagged_kept element message p :
  forms_flagged p ->
  known_as p element ->
  forms_flagged (snd (setErrorState element message p))
  /\ forms_flagged (snd (recoverErrorState element p)).
Proof.
  intros Hflag Hknown. split.
  - pose proof (setErrorState_page element message p) as (Hdoc & _ & Herr & _).
    pose proof (setErrorState_shown element message p) as (Hform & _).
    cbv zeta in *. set (p' := snd (setErrorState element message p)) in *.
    clearbody p'. intros g S Hin Hinput Hg Hgerr.
    rewrite Hdoc in Hin. rewrite Herr in Hgerr. rewrite Hform.
    apply elem_of_union in Hgerr as [Hsame%elem_of_singleton|Hgerr].
    + rewrite <- (Hknown g Hin Hsame), Hg. set_solver.
    + pose proof (Hflag g S Hin Hinput Hg Hgerr).
      destruct (closest_form element); set_solver.
  - pose proof (recoverErrorState_page element p) as (Hdoc & _ & Herr & _ & Hform).
    cbv zeta in *. set (p' := snd (recoverErrorState element p)) in *.
    clearbody p'. intros g S Hin Hinput Hg Hgerr.
    assert (node g ∈ error_class p /\ node g <> node element) as [Hgerr' Hne].
    { rewrite Herr in Hgerr. set_solver. }
    rewrite Hdoc in Hin. pose proof (Hflag g S Hin Hinput Hg Hgerr') as HS.
    rewrite Hform.
    destruct (other_errors p' element) eqn:Hothers; [done|].
    destruct (closest_form element) as [my_form|] eqn:Hmy; [|done].
    destruct (decide (S = my_form)) as [->|HSne]; [|set_solver].
    apply not_true_iff_false in Hothers. destruct Hothers.
    apply other_errors_true. exists g, my_form.
    rewrite Hdoc. repeat split; done.
Qed.

Lemma forms_flagged_kept_witness :
  forms_flagged (snd (setErrorState field_a "Incorrect Format"
                        (sample_page ∅ ∅ ∅)))
  /\ forms_flagged (snd (recoverErrorState field_a (sample_page ∅ ∅ ∅))).
Proof.
  apply (forms_flagged_kept field_a "Incorrect Format" (sample_page ∅ ∅ ∅)).
  - intros g S _ _ _ Hg. simpl in Hg. by apply not_elem_of_empty in Hg.
  - intros g Hin Hg. simpl in Hin.
    destruct Hin as [<-|[<-|[]]]; [done | discriminate Hg].
Defined.



End ShownState.

(** ** The rule sets of layer 3 and the composites of layer 2 *)

Section RuleSets.

Implicit Types (p : page) (field element : domElement) (R : list bool).

Lemma bindValidationError_run field (callback : bool) (error_message : string) p :
  bindValidationError field callback error_message p
  = (Returned callback,
     if callback then p else snd (setErrorState field error_message p)).
Proof.
  destruct callback; [reflexivity | apply bindValidationError_fail].
Qed.

Lemma bindFieldValidationArray_acts field R (r : report) p :
  acts_on_field r ->
  bindFieldValidationArray field R r p
  = if forallb id R then (Returned true, snd (recoverErrorState field p))
    else (Returned false, snd (setErrorState field (report_text r) p)).
Proof.
  intros Hr. destruct (forallb id R) eqn:HR.
  - by apply bindFieldValidationArray_pass.
  - destruct Hr as [->|[text ->]]; [|by apply bindFieldValidationArray_fail].
    unfold bindFieldValidationArray.
    rewrite runValidationRuleset_halt, HR. run_page.
    pose proof (setErrorState_returns field EmptyString p) as Hret.
    by destruct (setErrorState field EmptyString p) as [[[]|] p'].
Qed.

(** X19: Given a message or [false], [bindFieldValidationArray] returns the
    conjunction of the results, and the field is in error afterwards
    exactly when a rule failed, whatever its state before. On a failure
    the message given is set; given [false], the empty message is set. *)
Theorem bindFieldValidationArray_verdict field R (r : report) p :
  acts_on_field r ->
  exists p',
    bindFieldValidationArray field R r p = (Returned (forallb id R), p')
    /\ (node field ∈ error_class p' <-> forallb id R = false)
    /\ commands p' =
       commands p ++ [if forallb id R then clearError (node field)
                      else setError (node field) (report_text r)].
Proof.
  intros Hr. rewrite bindFieldValidationArray_acts by done.
  destruct (forallb id R).
  - pose proof (recoverErrorState_page field p) as (_ & _ & Herr & Hcmd & _).
    eexists. split; [done|]. split; [|done]. simpl in *. rewrite Herr.
    split; [set_solver | done].
  - pose proof (setErrorState_page field (report_text r) p)
      as (_ & _ & Herr & Hcmd).
    eexists. split; [done|]. split; [|done]. simpl in *. rewrite Herr.
    split; [done | set_solver].
Qed.

Lemma bindFieldValidationArray_verdict_witness :
  exists p',
    bindFieldValidationArray field_a [true; false] (Report (Bool false))
      (sample_page ∅ ∅ ∅) = (Returned false, p')
    /\ (node field_a ∈ error_class p' <-> false = false)
    /\ commands p' = [setError 10%nat EmptyString].
Proof.
  assert (acts_on_field (Report (Bool false))) as Hmode by (by left).
  exact (bindFieldValidationArray_verdict field_a [true; false]
           (Report (Bool false)) (sample_page ∅ ∅ ∅) Hmode).
Defined.

(** X20: [validateZipField] passes exactly the values of five digits, and the
    empty value unless [error_on_blank] is [true];
    [validateCompanyIdField] passes exactly the values of four letters or
    digits, and the empty value likewise. *)
Theorem validateZipField_accepts field (error_message : string)
        (error_on_blank : flag) p :
  let v := value_of p field in
  (fst (validateZipField field error_message error_on_blank p) = Returned true
   <-> (forall c, In c (chars v) -> digit c = true)
       /\ (str_length v = 5 \/ (v = EmptyString /\ error_on_blank <> Bool true)))
  /\ (fst (validateCompanyIdField field error_message error_on_blank p)
      = Returned true
      <-> (forall c, In c (chars v) -> alnum c = true)
          /\ (str_length v = 4
              \/ (v = EmptyString /\ error_on_blank <> Bool true))).
Proof.
  intros v.
  assert (forall n, lengthValid v (Some n) (Some n) error_on_blank = true
                    <-> str_length v = n
                        \/ (v = EmptyString /\ error_on_blank <> Bool true))
    as Hlen.
  { intros n. rewrite lengthValid_spec. split.
    - intros [[? _]|[[? ?]|[Hlo Hhi]]]; [done | by right |].
      specialize (Hlo _ eq_refl). specialize (Hhi _ eq_refl). left. lia.
    - intros [Hn|[? ?]]; [|by right; left].
      right. right. split; intros m [= <-]; lia. }
  assert (acts_on_field (Message error_message)) as Hmode
    by (right; by eexists).
  split.
  - unfold validateZipField, val. run_page. fold v.
    rewrite bindFieldValidationArray_acts by done. simpl.
    rewrite andb_true_r, containsOnlyNumeric_forallb, <- forallb_forall, <- Hlen.
    destruct (forallb digit (chars v)), (lengthValid v _ _ _); simpl;
      split; try done; by intros [? ?].
  - unfold validateCompanyIdField, val. run_page. fold v.
    rewrite bindFieldValidationArray_acts by done. simpl.
    rewrite andb_true_r, containsOnlyAlphaNumeric_forallb, <- forallb_forall,
      <- Hlen.
    destruct (forallb alnum (chars v)), (lengthValid v _ _ _); simpl;
      split; try done; by intros [? ?].
Qed.

(** X21: [validatePasswordField] passes exactly the passwords of 8 to 128
    characters with an upper case letter, a lower case letter and a digit
    in which the user id does not stand; an empty user id forbids
    nothing. [validateSecurityField] passes the answers of 4 to 512
    characters, or empty unless [error_on_blank] is [true], in which the
    linked value does not stand; with [error_on_blank = true] an empty
    linked value fails every answer. *)
Theorem validatePasswordField_accepts field other (error_message : string)
        (error_on_blank : flag) p :
  let v := value_of p field in
  let w := value_of p other in
  (fst (validatePasswordField field other error_message p) = Returned true
   <-> (8 <= str_length v <= 128)
       /\ (exists c, In c (chars v) /\ upper c = true)
       /\ (exists c, In c (chars v) /\ lower c = true)
       /\ (exists c, In c (chars v) /\ digit c = true)
       /\ (w = EmptyString \/ ~ occurs w v))
  /\ (fst (validateSecurityField field other error_message error_on_blank p)
      = Returned true
      <-> ((4 <= str_length v <= 512)
           \/ (v = EmptyString /\ error_on_blank <> Bool true))
          /\ ((w = EmptyString /\ error_on_blank <> Bool true)
              \/ ~ occurs w v))
  /\ (error_on_blank = Bool true -> w = EmptyString ->
      fst (validateSecurityField field other error_message error_on_blank p)
      = Returned false).
Proof.
  intros v w.
  assert (forall lo hi f, lengthValid v (Some lo) (Some hi) f = true
                          <-> (lo <= str_length v <= hi)
                              \/ (v = EmptyString /\ f <> Bool true)) as Hlen.
  { intros lo hi f. rewrite lengthValid_spec. split.
    - intros [[? _]|[[? ?]|[Hlo Hhi]]]; [done | by right |].
      specialize (Hlo _ eq_refl). specialize (Hhi _ eq_refl). left. lia.
    - intros [Hn|[? ?]]; [|by right; left].
      right. right. split; intros m [= <-]; lia. }
  assert (acts_on_field (Message error_message)) as Hmode
    by (right; by eexists).
  split; [|split].
  - unfold validatePasswordField, val. run_page. fold v w.
    rewrite bindFieldValidationArray_acts by done. simpl.
    rewrite andb_true_r.
    assert (forall (a : bool) (x y : outcome bool * page),
               fst x = Returned true -> fst y = Returned false ->
               (fst (if a then x else y) = Returned true <-> a = true)) as Hif.
    { intros [] x y Hx Hy; [done|]. rewrite Hy. done. }
    rewrite Hif by done. rewrite !andb_true_iff, Hlen.
    unfold containsLowerAndUppercase, containsUppercase, containsLowercase,
      containsNumber.
    rewrite !test_unanchored, andb_true_iff, !existsb_exists.
    rewrite (proj1 (doesNotContainValue_spec w v (Bool false))).
    split.
    + intros ([Hl|[_ Hf]] & [Hu Hlo] & Hd & Hc); [|done].
      destruct Hc as [[Hw _]|Hn]; tauto.
    + intros (Hl & Hu & Hlo & Hd & Hc).
      split; [by left|]. split; [done|]. split; [done|].
      destruct Hc as [Hw|Hn]; [left; by split | by right].
  - unfold validateSecurityField, val. run_page. fold v w.
    rewrite bindFieldValidationArray_acts by done. simpl.
    rewrite andb_true_r.
    assert (forall (a : bool) (x y : outcome bool * page),
               fst x = Returned true -> fst y = Returned false ->
               (fst (if a then x else y) = Returned true <-> a = true)) as Hif.
    { intros [] x y Hx Hy; [done|]. rewrite Hy. done. }
    rewrite Hif by done. rewrite andb_true_iff, Hlen.
    by rewrite (proj1 (doesNotContainValue_spec w v error_on_blank)).
  - intros -> Hw. unfold validateSecurityField, val. run_page. fold v w.
    rewrite bindFieldValidationArray_acts by done. simpl.
    rewrite Hw, (proj2 (doesNotContainValue_spec EmptyString v (Bool true))).
    by rewrite andb_false_r.
Qed.

Lemma validatePasswordField_accepts_witness :
  fst (validateSecurityField field_a field_b "Invalid answer" (Bool true)
         (sample_page {[10%nat := "my first dog"%string]} ∅ ∅))
  = Returned false.
Proof.
  apply (proj2 (proj2 (validatePasswordField_accepts field_a field_b
                         "Invalid answer" (Bool true)
                         (sample_page {[10%nat := "my first dog"%string]} ∅ ∅))));
    reflexivity.
Defined.

(** X22: [fieldsMatch] reads the two fields and changes nothing. It passes
    when the values are equal, and also, with [fail_on_blank = false],
    when one of them is empty; the order of the two fields does not
    matter. *)
Theorem fieldsMatch_equal (field_1 field_2 : domElement) (fail_on_blank : flag)
        p :
  exists b : bool,
    fieldsMatch field_1 field_2 fail_on_blank p = (Returned b, p)
    /\ fieldsMatch field_2 field_1 fail_on_blank p = (Returned b, p)
    /\ (b = true
        <-> value_of p field_1 = value_of p field_2
            \/ (fail_on_blank = Bool false
                /\ (value_of p field_1 = EmptyString
                    \/ value_of p field_2 = EmptyString))).
Proof.
  unfold fieldsMatch, val. run_page.
  set (v1 := value_of p field_1). set (v2 := value_of p field_2).
  pose proof (str_length_zero v1) as H1. pose proof (str_length_zero v2) as H2.
  rewrite (String.eqb_sym v2 v1), (orb_comm (str_length v2 =? 0)).
  destruct fail_on_blank as [|[]]; simpl;
    destruct (str_length v1 =? 0), (str_length v2 =? 0); simpl;
    destruct (String.eqb_spec v1 v2) as [Heq|Hne]; simpl;
    eexists; (split; [done|]); (split; [done|]);
    split; try done; try (intros _; by left);
    try (intros _; right; split; [done|]; first [left; by apply H1 | right; by apply H2]);
    try (intros [?|[? _]]; done).
  all: intros [?|[_ [Hv|Hv]]]; try done.
  all: first [apply H1 in Hv | apply H2 in Hv]; done.
Qed.

Lemma allFieldsEmpty_run (all_fields : list domElement) p :
  allFieldsEmpty all_fields p
  = (Returned (forallb (fun g => negb (fieldNotEmpty (value_of p g))) all_fields),
     p).
Proof.
  induction all_fields as [|this rest IH]; [done|].
  simpl. unfold val. run_page.
  destruct (fieldNotEmpty (value_of p this)); simpl; [done | apply IH].
Qed.

Lemma NotEmptyIfAnyFieldsNotEmpty_run field (all_fields : list domElement) p :
  NotEmptyIfAnyFieldsNotEmpty field all_fields p
  = (Returned
       (negb (existsb (fun g => negb (Nat.eqb (node g) (node field))
                                && fieldNotEmpty (value_of p g)) all_fields
              && negb (fieldNotEmpty (value_of p field)))),
     p).
Proof.
  unfold NotEmptyIfAnyFieldsNotEmpty, val. run_page.
  rewrite allFieldsEmpty_run. simpl.
  assert (forall l : list domElement,
    forallb (fun g => negb (fieldNotEmpty (value_of p g)))
      (List.filter (fun value => negb (Nat.eqb (node value) (node field))) l)
    = negb (existsb (fun g => negb (Nat.eqb (node g) (node field))
                              && fieldNotEmpty (value_of p g)) l)) as ->.
  { induction l as [|g l IH]; simpl; [done|].
    destruct (Nat.eqb (node g) (node field)); simpl; [done|].
    rewrite IH. by destruct (fieldNotEmpty (value_of p g)). }
  rewrite negb_involutive.
  by destruct (existsb _ all_fields), (fieldNotEmpty (value_of p field)).
Qed.

(** X23: [NotEmptyIfAnyFieldsNotEmpty] reads the fields and changes nothing. It
    fails exactly when the field is empty and some other field of the
    list is not; the field itself, when it is in the list, does not
    count. *)
Theorem NotEmptyIfAnyFieldsNotEmpty_others field
        (all_fields : list domElement) p :
  exists b : bool,
    NotEmptyIfAnyFieldsNotEmpty field all_fields p = (Returned b, p)
    /\ (b = false
        <-> fieldNotEmpty (value_of p field) = false
            /\ exists g, In g all_fields /\ node g <> node field
                         /\ fieldNotEmpty (value_of p g) = true).
Proof.
  rewrite NotEmptyIfAnyFieldsNotEmpty_run. eexists. split; [done|].
  rewrite negb_false_iff, andb_true_iff, negb_true_iff, existsb_exists.
  split.
  - intros [(g & Hin & [Hne%negb_true_iff%Nat.eqb_neq Hg]%andb_true_iff) Hf].
    split; [done|]. by exists g.
  - intros [Hf (g & Hin & Hne & Hg)]. split; [|done]. exists g.
    split; [done|]. rewrite Hg, andb_true_r. by apply negb_true_iff, Nat.eqb_neq.
Qed.

Lemma only_sets_refl p : only_sets p p.
Proof.
  split; [done|]. split; [done|]. exists []. by rewrite app_nil_r.
Qed.

Lemma only_sets_trans p q r : only_sets p q -> only_sets q r -> only_sets p r.
Proof.
  intros (He1 & Hf1 & l1 & Hc1 & Hl1) (He2 & Hf2 & l2 & Hc2 & Hl2).
  split; [by etrans|]. split; [by etrans|]. exists (l1 ++ l2).
  rewrite Hc2, Hc1, <- app_assoc. split; [done|]. by apply Forall_app.
Qed.

Lemma setErrorState_only_sets element (message : string) p :
  only_sets p (snd (setErrorState element message p)).
Proof.
  pose proof (setErrorState_page element message p) as (_ & _ & Herr & Hcmd).
  pose proof (setErrorState_shown element message p) as (Hform & _).
  simpl in *. split; [rewrite Herr; set_solver|]. split.
  - rewrite Hform. destruct (closest_form element); set_solver.
  - exists [setError (node element) message]. split; [done|].
    by repeat constructor.
Qed.

Lemma bindValidationError_only_sets field (callback : bool)
      (error_message : string) p :
  only_sets p (snd (bindValidationError field callback error_message p)).
Proof.
  rewrite bindValidationError_run. simpl.
  destruct callback; [apply only_sets_refl | apply setErrorState_only_sets].
Qed.

(** X24: The composites that hand their results to [bindFieldValidationArray]
    with [true] never answer [true]: [handleSSNField], [handleEmailField]
    and [handleZipAllForOneField] return [false] on every page and value,
    and [handlePhoneField] returns [false] or throws, leaving the page as
    it was. *)
Theorem handle_composites_answer_false field (error_on_blank required : flag)
        (all_fields : list domElement) p :
  fst (handleSSNField field error_on_blank p) = Returned false
  /\ fst (handleEmailField field error_on_blank p) = Returned false
  /\ fst (handleZipAllForOneField field all_fields p) = Returned false
  /\ (fst (handlePhoneField field error_on_blank required p) = Returned false
      \/ handlePhoneField field error_on_blank required p = (Thrown, p)).
Proof.
  split; [|split; [|split]].
  - unfold handleSSNField, validateSSNField, val. run_page.
    rewrite bindValidationError_run. simpl.
    by rewrite bindFieldValidationArray_report.
  - unfold handleEmailField, validateEmailField, validateRequiredField, val.
    run_page. rewrite bindValidationError_run. simpl.
    rewrite bindValidationError_run. simpl.
    by rewrite bindFieldValidationArray_report.
  - unfold handleZipAllForOneField, validateZipField,
      validateRequiredOneForAllField, val. run_page.
    rewrite bindFieldValidationArray_acts by (right; by eexists).
    match goal with |- context [if ?b then _ else _] => destruct b end;
      rewrite NotEmptyIfAnyFieldsNotEmpty_run, bindValidationError_run; simpl;
      by rewrite ?bindFieldValidationArray_report.
  - unfold handlePhoneField, validatePhoneField, validateRequiredField, val.
    run_page.
    destruct (phoneValid (value_of p field) error_on_blank) as [valid|];
      [left | by right].
    cbv beta iota. rewrite bindValidationError_run. simpl.
    destruct (strict_true required); run_page.
    + rewrite bindValidationError_run. simpl.
      by rewrite bindFieldValidationArray_report.
    + by rewrite bindFieldValidationArray_report.
Qed.

(** X25: The composites built on single rules only ever set errors:
    [handleRequiredField], [handleRequiredOneForAllField],
    [handleSSNField], [handleEmailField] and [handlePhoneField] take no
    class [error] and no class [form-error-state] away and issue no
    clear-error command, so a field in error stays in error when its value
    has become valid. *)
Theorem handle_composites_only_set field (error_on_blank required : flag)
        (all_fields : list domElement) p :
  only_sets p (snd (handleRequiredField field p))
  /\ only_sets p (snd (handleRequiredOneForAllField field all_fields p))
  /\ only_sets p (snd (handleSSNField field error_on_blank p))
  /\ only_sets p (snd (handleEmailField field error_on_blank p))
  /\ only_sets p (snd (handlePhoneField field error_on_blank required p)).
Proof.
  assert (forall (b : bool) (m : string) q,
             only_sets q (if b then q else snd (setErrorState field m q)))
    as Hstep.
  { intros [] m q; [apply only_sets_refl | apply setErrorState_only_sets]. }
  split; [|split; [|split; [|split]]].
  - unfold handleRequiredField, validateRequiredField, val. run_page.
    apply bindValidationError_only_sets.
  - unfold handleRequiredOneForAllField, validateRequiredOneForAllField.
    run_page. rewrite NotEmptyIfAnyFieldsNotEmpty_run.
    apply bindValidationError_only_sets.
  - unfold handleSSNField, validateSSNField, val. run_page.
    rewrite bindValidationError_run. simpl.
    rewrite bindFieldValidationArray_report by done. apply Hstep.
  - unfold handleEmailField, validateEmailField, validateRequiredField, val.
    run_page. rewrite bindValidationError_run. simpl.
    rewrite bindValidationError_run. simpl.
    rewrite bindFieldValidationArray_report by done. simpl.
    eapply only_sets_trans; apply Hstep.
  - unfold handlePhoneField, validatePhoneField, validateRequiredField, val.
    run_page.
    destruct (phoneValid (value_of p field) error_on_blank) as [valid|];
      [|apply only_sets_refl].
    cbv beta iota. rewrite bindValidationError_run. simpl.
    destruct (strict_true required); run_page.
    + rewrite bindValidationError_run. simpl.
      rewrite bindFieldValidationArray_report by done. simpl.
      eapply only_sets_trans; apply Hstep.
    + rewrite bindFieldValidationArray_report by done. apply Hstep.
Qed.

Lemma value_of_ext p q element :
  values q = values p -> value_of q element = value_of p element.
Proof. unfold value_of. by intros ->. Qed.

(** X26: [handleZipField] as the example binds it, with
    [error_on_blank = false] and [required = true]. An empty field is
    first recovered and then gets the message of the required rule; a
    zip of five digits is recovered; any other value of up to 999999
    characters gets the message of the format rule alone. *)
Theorem handleZipField_required field p :
  let v := value_of p field in
  let p' := snd (handleZipField field (Bool false) (Bool true) p) in
  let valid := (forall c, In c (chars v) -> digit c = true)
               /\ str_length v = 5 in
  (v = EmptyString ->
   commands p' = commands p ++ [clearError (node field);
                                setError (node field) "This field is required"]
   /\ node field ∈ error_class p')
  /\ (valid ->
      commands p' = commands p ++ [clearError (node field)]
      /\ (node field ∉ error_class p'))
  /\ (v <> EmptyString -> ~ valid -> str_length v <= 999999 ->
      commands p' = commands p ++ [setError (node field) "Incorrect Format"]
      /\ node field ∈ error_class p').
Proof.
  intros v p' valid. subst p'.
  unfold handleZipField, validateZipField, validateRequiredField, val.
  run_page. fold v.
  rewrite bindFieldValidationArray_acts by (right; by eexists). simpl.
  rewrite andb_true_r, containsOnlyNumeric_forallb.
  pose proof (recoverErrorState_page field p) as (_ & Hv1 & He1 & Hc1 & _).
  pose proof (setErrorState_page field "Incorrect Format" p)
    as (_ & Hv2 & He2 & Hc2).
  cbv zeta in *.
  set (p1 := snd (recoverErrorState field p)) in *.
  set (p2 := snd (setErrorState field "Incorrect Format" p)) in *.
  pose proof (setErrorState_page field "This field is required" p1)
    as (_ & _ & He3 & Hc3).
  cbv zeta in *.
  assert (lengthValid v (Some 5) (Some 5) (Bool false) = true
          <-> str_length v = 5 \/ v = EmptyString) as Hlen.
  { rewrite lengthValid_spec. split.
    - intros [[? _]|[[_ ?]|[Hlo Hhi]]]; [done | by right |].
      specialize (Hlo _ eq_refl). specialize (Hhi _ eq_refl). left. lia.
    - intros [Hn| ->]; [|by right; left].
      right. right. split; intros m [= <-]; lia. }
  assert (forallb digit (chars v) = true
          <-> forall c, In c (chars v) -> digit c = true) as Hdigits
    by apply forallb_forall.
  pose proof (fieldNotEmpty_spec v) as Hfilled.
  split; [|split].
  - intros Hblank.
    assert (forallb digit (chars v) && lengthValid v (Some 5) (Some 5) (Bool false)
            = true) as ->.
    { apply andb_true_iff. split; [by rewrite Hblank | apply Hlen; by right]. }
    simpl. rewrite bindValidationError_run.
    rewrite (value_of_ext p p1 field Hv1). fold v.
    assert (fieldNotEmpty v = false) as ->.
    { apply not_true_is_false. intros [? _]%Hfilled. done. }
    simpl. rewrite ?bindFieldValidationArray_report by done. simpl.
    rewrite Hc3, Hc1, He3, <- app_assoc. split; [done | set_solver].
  - intros [Hall Hfive].
    assert (forallb digit (chars v) && lengthValid v (Some 5) (Some 5) (Bool false)
            = true) as ->.
    { apply andb_true_iff. split; [by apply Hdigits | apply Hlen; by left]. }
    simpl. rewrite bindValidationError_run.
    rewrite (value_of_ext p p1 field Hv1). fold v.
    assert (fieldNotEmpty v = true) as ->.
    { apply Hfilled. split; [|lia]. intros Hv. rewrite Hv in Hfive. done. }
    simpl. rewrite ?bindFieldValidationArray_report by done. simpl.
    rewrite Hc1, He1. split; [done | set_solver].
  - intros Hfull Hinvalid Hshort.
    assert (forallb digit (chars v) && lengthValid v (Some 5) (Some 5) (Bool false)
            = false) as ->.
    { apply not_true_is_false. intros [Hd Hl]%andb_true_iff.
      apply Hinvalid. split; [by apply Hdigits|].
      by apply Hlen in Hl as [?|?]. }
    simpl. rewrite bindValidationError_run.
    rewrite (value_of_ext p p2 field Hv2). fold v.
    assert (fieldNotEmpty v = true) as -> by (by apply Hfilled).
    simpl. rewrite ?bindFieldValidationArray_report by done. simpl.
    rewrite Hc2, He2. split; [done | set_solver].
Qed.

Lemma handleZipField_required_witness :
  commands (snd (handleZipField field_a (Bool false) (Bool true)
                   (sample_page ∅ ∅ ∅)))
  = [clearError 10%nat; setError 10%nat "This field is required"]
  /\ node field_a
     ∈ error_class (snd (handleZipField field_a (Bool false) (Bool true)
                           (sample_page ∅ ∅ ∅))).
Proof.
  assert (value_of (sample_page ∅ ∅ ∅) field_a = EmptyString) as Hblank
    by reflexivity.
  exact (proj1 (handleZipField_required field_a (sample_page ∅ ∅ ∅)) Hblank).
Defined.

End RuleSets.
